(** * vscode-annotate: the annotation store, its path hasher and its
      version-control adapter

    A shallow embedding of the class [AnnotationStorage], which
    [src/types.ts] carries after the data model and its text helpers, of
    the class [GitService] of [src/gitService.ts] and of the class
    [AnnotationCodeLensProvider] of [src/annotationCodeLensProvider.ts],
    together with the parts of the Node runtime they call
    ([path.normalize], [path.basename], [path.join], SHA-256 from
    [crypto]) and a small model of git as simple-git shows it.

    Conventions.
    - A JavaScript string is a [string] whose characters are its UTF-16
      code units; the strings covered are those whose code units lie
      below 256.  [length], [substring], [indexOf], [trim] and the
      regular expressions work on these units; the digest is taken over
      the UTF-8 encoding of the string, as [update] does.
    - [path] is [path.posix], the [path] of Node on a POSIX host (Linux,
      macOS).  On Windows [path] is [path.win32], which is not modelled:
      every statement about locations is a statement about POSIX hosts.
    - [number] fields hold integers and are modelled in [Z].
    - Annotation objects live in a heap and are held by reference, since
      [updateAnnotation] mutates them in place.
    - An [async] method is a state transformer that either returns or
      throws; the state it leaves behind is kept in both cases. *)

From Stdlib Require Import ZArith Ascii String List Lia Bool.
From stdpp Require Import base option list gmap strings relations.

Local Open Scope Z_scope.

(** ** SHA-256 (FIPS 180-4), as computed by
       [createHash('sha256').update(s).digest('hex')] *)

Module Sha256.

Definition w32 (x : Z) : Z := x mod 2 ^ 32.
Definition add32 (x y : Z) : Z := w32 (x + y).
Definition rotr (n x : Z) : Z :=
  Z.lor (Z.shiftr x n) (w32 (Z.shiftl x (32 - n))).
Definition not32 (x : Z) : Z := Z.lxor x 0xffffffff.

Definition Ch (x y z : Z) : Z := Z.lxor (Z.land x y) (Z.land (not32 x) z).
Definition Maj (x y z : Z) : Z :=
  Z.lxor (Z.lxor (Z.land x y) (Z.land x z)) (Z.land y z).
Definition Sigma0 (x : Z) : Z :=
  Z.lxor (Z.lxor (rotr 2 x) (rotr 13 x)) (rotr 22 x).
Definition Sigma1 (x : Z) : Z :=
  Z.lxor (Z.lxor (rotr 6 x) (rotr 11 x)) (rotr 25 x).
Definition sigma0 (x : Z) : Z :=
  Z.lxor (Z.lxor (rotr 7 x) (rotr 18 x)) (Z.shiftr x 3).
Definition sigma1 (x : Z) : Z :=
  Z.lxor (Z.lxor (rotr 17 x) (rotr 19 x)) (Z.shiftr x 10).

(** The round constants are the first 32 bits of the fractional parts of
    the cube roots of the first 64 primes; the initial hash value takes
    the square roots of the first 8. *)
Definition is_prime (n : Z) : bool :=
  forallb (fun d => negb (n mod d =? 0)) (map Z.of_nat (seq 2 (Z.to_nat n - 2))).

Definition primes : list Z :=
  List.filter is_prime (map Z.of_nat (seq 2 310)).

(** The largest [r] in [[lo, hi)] whose cube is at most [n]. *)
Fixpoint cube_root_between (fuel : nat) (n lo hi : Z) : Z :=
  match fuel with
  | O => lo
  | S fuel' =>
      if hi - lo <=? 1 then lo
      else
        let mid := (lo + hi) / 2 in
        if mid * mid * mid <=? n then cube_root_between fuel' n mid hi
        else cube_root_between fuel' n lo mid
  end.

Definition frac_cube_root (p : Z) : Z :=
  w32 (cube_root_between 64 (p * 2 ^ 96) 0 (2 ^ 36)).

Definition frac_square_root (p : Z) : Z := w32 (Z.sqrt (p * 2 ^ 64)).

Definition K : list Z := map frac_cube_root primes.

(** Padding: a [0x80] byte, zero bytes up to 56 modulo 64, then the bit
    length as a 64-bit big-endian integer. *)
Fixpoint be_bytes (n : nat) (x : Z) : list Z :=
  match n with
  | O => []
  | S n' => Z.land (Z.shiftr x (8 * Z.of_nat n')) 0xff :: be_bytes n' x
  end.

Definition pad (msg : list Z) : list Z :=
  let len := Z.of_nat (length msg) in
  let zeros := Z.to_nat ((55 - len) mod 64) in
  msg ++ [0x80] ++ repeat 0 zeros ++ be_bytes 8 (8 * len).

Fixpoint be_words (fuel : nat) (bs : list Z) : list Z :=
  match fuel, bs with
  | S fuel', b0 :: b1 :: b2 :: b3 :: rest =>
      (Z.shiftl b0 24 + Z.shiftl b1 16 + Z.shiftl b2 8 + b3)
        :: be_words fuel' rest
  | _, _ => []
  end.

(** The message schedule: [w] holds W(t-1) .. W(0), newest first. *)
Fixpoint schedule (n : nat) (w : list Z) : list Z :=
  match n with
  | O => w
  | S n' =>
      let at_ i := nth i w 0 in
      let wt := add32 (add32 (sigma1 (at_ 1%nat)) (at_ 6%nat))
                      (add32 (sigma0 (at_ 14%nat)) (at_ 15%nat)) in
      schedule n' (wt :: w)
  end.

Record regs := Regs { ra : Z; rb : Z; rc : Z; rd : Z;
                      re : Z; rf : Z; rg : Z; rh : Z }.

Definition round (r : regs) (kw : Z * Z) : regs :=
  let t1 := add32 (add32 (add32 (rh r) (Sigma1 (re r)))
                         (add32 (Ch (re r) (rf r) (rg r)) (fst kw)))
                  (snd kw) in
  let t2 := add32 (Sigma0 (ra r)) (Maj (ra r) (rb r) (rc r)) in
  Regs (add32 t1 t2) (ra r) (rb r) (rc r) (add32 (rd r) t1) (re r) (rf r) (rg r).

Definition compress (h : regs) (block : list Z) : regs :=
  let w := rev (schedule 48 (rev block)) in
  let r := fold_left round (combine K w) h in
  Regs (add32 (ra h) (ra r)) (add32 (rb h) (rb r))
       (add32 (rc h) (rc r)) (add32 (rd h) (rd r))
       (add32 (re h) (re r)) (add32 (rf h) (rf r))
       (add32 (rg h) (rg r)) (add32 (rh h) (rh r)).

Fixpoint blocks (fuel : nat) (h : regs) (ws : list Z) : regs :=
  match fuel, ws with
  | S fuel', _ :: _ => blocks fuel' (compress h (firstn 16 ws)) (skipn 16 ws)
  | _, _ => h
  end.

Definition init : regs :=
match map frac_square_root (firstn 8 primes) with
| [a; b; c; d; e; f; g; h] => Regs a b c d e f g h
| _ => Regs 0 0 0 0 0 0 0 0
end.

Definition digest (msg : list Z) : regs :=
  let bs := pad msg in
  blocks (length bs) init (be_words (length bs) bs).

(** Lower-case hexadecimal rendering, eight digits per word. *)
Definition hex_digit (d : Z) : ascii :=
  if d <? 10 then ascii_of_nat (Z.to_nat (48 + d))
  else ascii_of_nat (Z.to_nat (87 + d)).

Fixpoint hex_word (n : nat) (x : Z) : list ascii :=
  match n with
  | O => []
  | S n' => hex_digit (Z.land (Z.shiftr x (4 * Z.of_nat n')) 0xf) :: hex_word n' x
  end.

Definition hex (r : regs) : list ascii :=
  hex_word 8 (ra r) ++ hex_word 8 (rb r) ++ hex_word 8 (rc r) ++
  hex_word 8 (rd r) ++ hex_word 8 (re r) ++ hex_word 8 (rf r) ++
  hex_word 8 (rg r) ++ hex_word 8 (rh r).

(** [update(s)] hashes the UTF-8 encoding of [s]: a code unit below 128
    is one byte, a code unit from 128 to 255 is two. *)
Definition utf8_unit (c : ascii) : list Z :=
  let n := Z.of_nat (nat_of_ascii c) in
  if n <? 128 then [n] else [Z.lor 0xc0 (Z.shiftr n 6); Z.lor 0x80 (Z.land n 0x3f)].

Definition bytes_of_string (s : string) : list Z :=
  flat_map utf8_unit (list_ascii_of_string s).

Definition sha256_hex (s : string) : string :=
  string_of_list_ascii (hex (digest (bytes_of_string s))).

End Sha256.

(** ** [path.posix]: the [path] functions of the Node runtime on a POSIX
       host *)

Module Path.

Definition segment := list ascii.

Definition sep : ascii := "/"%char.
Definition dot : segment := ["."%char].
Definition dotdot : segment := ["."%char; "."%char].

(** [s.split('/')]: the pieces between separators, empty pieces kept. *)
Fixpoint split (s : list ascii) : list segment :=
  match s with
  | [] => [[]]
  | c :: s' =>
      if Ascii.eqb c sep then [] :: split s'
      else match split s' with
           | seg :: segs => (c :: seg) :: segs
           | [] => [[c]]
           end
  end.

(** [segs.join('/')]. *)
Fixpoint join (segs : list segment) : list ascii :=
  match segs with
  | [] => []
  | [seg] => seg
  | seg :: rest => seg ++ sep :: join rest
  end.

Definition seg_eqb (a b : segment) : bool := bool_decide (a = b).

(** One step of [normalizeString]: [res] is the stack of kept segments,
    innermost first. *)
Definition step (allowAboveRoot : bool) (res : list segment) (seg : segment)
  : list segment :=
  if seg_eqb seg [] || seg_eqb seg dot then res
  else if seg_eqb seg dotdot then
    match res with
    | top :: below =>
        if seg_eqb top dotdot
        then (if allowAboveRoot then dotdot :: res else res)
        else below
    | [] => if allowAboveRoot then [dotdot] else []
    end
  else seg :: res.

Definition normalizeString (path : list ascii) (allowAboveRoot : bool)
  : list ascii :=
  join (rev (fold_left (step allowAboveRoot) (split path) [])).

Definition starts_with_sep (path : list ascii) : bool :=
  match path with
  | c :: _ => Ascii.eqb c sep
  | [] => false
  end.

Definition ends_with_sep (path : list ascii) : bool :=
  starts_with_sep (rev path).

(** [path.normalize]. *)
Definition normalize_chars (path : list ascii) : list ascii :=
  match path with
  | [] => dot
  | _ =>
      let isAbsolute := starts_with_sep path in
      let trailingSeparator := ends_with_sep path in
      let body := normalizeString path (negb isAbsolute) in
      match body with
      | [] =>
          if isAbsolute then [sep]
          else if trailingSeparator then dot ++ [sep] else dot
      | _ =>
          (if isAbsolute then [sep] else []) ++ body ++
          (if trailingSeparator then [sep] else [])
      end
  end.

(** [path.basename] without a suffix argument: the last non-empty
    piece, or the empty string when there is none. *)
Definition basename_chars (path : list ascii) : list ascii :=
  List.last (List.filter (fun seg => negb (seg_eqb seg [])) (split path)) [].

(** [path.join] of two arguments: empty arguments are skipped, the rest
    is glued with a separator and normalized. *)
Definition join_chars (a b : list ascii) : list ascii :=
  normalize_chars
    (match a, b with
     | [], _ => b
     | _, [] => a
     | _, _ => a ++ sep :: b
     end).

Definition normalize (path : string) : string :=
  string_of_list_ascii (normalize_chars (list_ascii_of_string path)).

Definition basename (path : string) : string :=
  string_of_list_ascii (basename_chars (list_ascii_of_string path)).

Definition join2 (a b : string) : string :=
  string_of_list_ascii
    (join_chars (list_ascii_of_string a) (list_ascii_of_string b)).

End Path.

Local Open Scope string_scope.
Local Open Scope list_scope.

(** ** Data model ([src/types.ts]) *)

Module Annotation.
Record t := mk {
  id : string;
  filePath : string;
  line : Z;
  column : Z;
  text : string;
  author : string;
  timestamp : Z;
  projectPath : string
}.
End Annotation.

Module AnnotationData.
Record t := mk {
  annotations : list Annotation.t;
  version : string
}.
End AnnotationData.

#[global] Instance Annotation_eq_dec : EqDecision Annotation.t.
Proof. solve_decision. Defined.

#[global] Instance AnnotationData_eq_dec : EqDecision AnnotationData.t.
Proof. solve_decision. Defined.

(** ** The world around the two classes *)

(** A file of the annotation repository's working tree.  [Document d] is
    JSON text that [JSON.parse] turns into the value [d], which the
    source types as [AnnotationData]; [Text raw] is content on which
    [JSON.parse(content).annotations] throws. *)
Inductive FileContent :=
  | Document (data : AnnotationData.t)
  | Text (raw : string).

#[global] Instance FileContent_eq_dec : EqDecision FileContent.
Proof. solve_decision. Defined.

Abbreviation tree := (gmap string FileContent).

(** The git repository that [simpleGit(repoPath)] drives. *)
Record Repository := mkRepository {
  committed : tree;            (* tree of the last commit *)
  staging : tree;              (* the index *)
  commits : list string;       (* messages of the commits made, oldest first *)
  remotes : list string;       (* names of the configured remotes *)
  pushes : nat                 (* number of pushes performed *)
}.

(** A JavaScript [Error]; [code] is the errno of a file-system error. *)
Record Error := mkError {
  message : string;
  code : option string
}.

(** [`${error}`] *)
Definition toString (e : Error) : string := "Error: " +:+ message e.

(** The lists of [StatusResult] the adapter inspects, and two more.  A
    staged rename is listed under [renamed] and nowhere else. *)
Record StatusResult := mkStatus {
  created : list string;
  deleted : list string;
  modified : list string;
  renamed : list (string * string);      (* from, to *)
  staged : list string
}.

(** How a [fs.writeFile] fails: with which error, and what it leaves at
    the path when it had opened, and so truncated, the file before failing
    ([None]: it failed before that, and the path is as it was).  What is
    left of a document is not a document. *)
Record WriteFailure := mkWriteFailure {
  write_error : Error;
  write_residue : option string
}.

(** What [git pull] does to the repository, decided by the remote. *)
Inductive PullResult :=
  | Merged (worktree : tree) (incoming : list string)
  | PullFailed (e : Error) (worktree : tree).

(** What the environment decides during one call: the clock, and which
    external operation fails ([None]: it succeeds). *)
Record Env := mkEnv {
  now : Z;                               (* Date.now() *)
  readFile_fault : option Error;         (* fs.readFile fails for a reason other
                                            than ENOENT on a missing file *)
  mkdir_fault : option Error;            (* fs.mkdir *)
  writeFile_fault : option WriteFailure; (* fs.writeFile *)
  add_fault : option Error;              (* git add . *)
  status_fault : option Error;           (* git status *)
  commit_fault : option Error;           (* git commit *)
  getRemotes_fault : option Error;       (* git remote *)
  push_fault : option Error;             (* git push *)
  pull_result : PullResult;              (* git pull *)
  detect_renames : tree -> tree -> list (string * string)
                                         (* the pairs (from, to) that git's
                                            rename detection makes of the paths
                                            deleted from and added to the index,
                                            given the last commit and the index *)
}.

(** References to annotation objects. *)
Definition ref := nat.

Record State := mkState {
  heap : list Annotation.t;              (* the annotation objects *)
  annotations : gmap string (list ref);  (* AnnotationStorage.annotations *)
  git : bool;                            (* GitService.git is not null *)
  repoPath : option string;              (* GitService.repoPath *)
  disk : tree;                           (* working tree of the repository *)
  repo : Repository;
  warnings : list string                 (* vscode.window.showWarningMessage *)
}.

Definition set_heap (f : list Annotation.t -> list Annotation.t) (s : State) : State :=
  mkState (f (heap s)) (annotations s) (git s) (repoPath s) (disk s) (repo s) (warnings s).
Definition set_annotations (f : gmap string (list ref) -> gmap string (list ref))
    (s : State) : State :=
  mkState (heap s) (f (annotations s)) (git s) (repoPath s) (disk s) (repo s) (warnings s).
Definition set_disk (f : tree -> tree) (s : State) : State :=
  mkState (heap s) (annotations s) (git s) (repoPath s) (f (disk s)) (repo s) (warnings s).
Definition set_repo (f : Repository -> Repository) (s : State) : State :=
  mkState (heap s) (annotations s) (git s) (repoPath s) (disk s) (f (repo s)) (warnings s).
Definition set_warnings (f : list string -> list string) (s : State) : State :=
  mkState (heap s) (annotations s) (git s) (repoPath s) (disk s) (repo s) (f (warnings s)).

(** ** Methods: state transformers that return or throw *)

Inductive outcome (A : Type) : Type :=
  | Returned (a : A)
  | Thrown (e : Error).
Arguments Returned {A} a.
Arguments Thrown {A} e.

Definition M (A : Type) : Type := State -> State * outcome A.

#[global] Instance M_ret : MRet M := fun A a s => (s, Returned a).
#[global] Instance M_bind : MBind M := fun A B k m s =>
  match m s with
  | (s', Returned a) => k a s'
  | (s', Thrown e) => (s', Thrown e)
  end.
#[global] Instance M_throw : MThrow Error M := fun A e s => (s, Thrown e).

(** [try { body } catch (error) { handler }] *)
Definition try_catch {A} (body : M A) (handler : Error -> M A) : M A :=
  fun s =>
    match body s with
    | (s', Returned a) => (s', Returned a)
    | (s', Thrown e) => handler e s'
    end.

Definition gets {A} (f : State -> A) : M A := fun s => (s, Returned (f s)).
Definition modify (f : State -> State) : M unit := fun s => (f s, Returned tt).
Definition fault (o : option Error) : M unit :=
  match o with
  | Some e => mthrow e
  | None => mret tt
  end.

(** [!x] of a value of type [string | null]: null and the empty string
    are falsy. *)
Definition truthy (o : option string) : option string :=
  match o with
  | Some s => if String.eqb s "" then None else Some s
  | None => None
  end.

(** *** File system and JSON *)

(** The error of reading a file that is not there. *)
Definition ENOENT (file : string) : Error :=
  mkError ("ENOENT: no such file or directory, open '" +:+ file +:+ "'") (Some "ENOENT").

(** The read fails as the environment decides, whether the file is there
    or not (a path that cannot be resolved, a file that cannot be opened
    or read); otherwise a file that is not there gives ENOENT. *)
Definition fs_readFile (env : Env) (file : string) : M FileContent :=
  fault (readFile_fault env);;
  c ← gets (fun s => disk s !! file);
  match c with
  | None => mthrow (ENOENT file)
  | Some content => mret content
  end.

(** Directories are not part of [disk]: creating one can only fail. *)
Definition fs_mkdir (env : Env) : M unit := fault (mkdir_fault env).

(** [fs.writeFile] opens the file with flag 'w', which truncates it,
    and writes in place: a write that fails after the file was opened
    leaves a part of the text behind. *)
Definition fs_writeFile (env : Env) (file : string) (content : FileContent) : M unit :=
  match writeFile_fault env with
  | None => modify (set_disk (<[file := content]>))
  | Some failure =>
      match write_residue failure with
      | Some raw => modify (set_disk (<[file := Text raw]>))
      | None => mret tt
      end;;
      mthrow (write_error failure)
  end.

Definition JSON_parse (content : FileContent) : M AnnotationData.t :=
  match content with
  | Document data => mret data
  | Text _ => mthrow (mkError "Unexpected token in JSON" None)
  end.

(** The objects [JSON.parse] creates are new ones. *)
Definition new_objects (values : list Annotation.t) : M (list ref) :=
  fun s => (set_heap (fun h => h ++ values) s,
            Returned (seq (length (heap s)) (length values))).

Definition showWarningMessage (msg : string) : M unit :=
  modify (set_warnings (fun w => w ++ [msg])).

(** *** git, as seen through simple-git *)

(** [git status] as the adapter asks for it, right after [git add .]:
    the index is the working tree, so every line of the porcelain output
    has a blank second column.  A path that is in the index and not in
    the last commit is added (A), one that is in the last commit and not
    in the index is deleted (D), one that is in both with other content
    is modified (M); where git pairs a deleted path with an added one the
    two lines become one rename line (R).  simple-git lists A under
    [created] and [staged], D under [deleted] and [staged], M under
    [modified] and [staged], and R under [renamed] only. *)
Definition status_of (detect : tree -> tree -> list (string * string))
    (r : Repository) : StatusResult :=
  let H := committed r in
  let I := staging r in
  let paths := elements (dom H ∪ dom I) in
  let renames :=
    filter (fun pair => (is_Some (H !! pair.1) ∧ I !! pair.1 = None) ∧
                        (H !! pair.2 = None ∧ is_Some (I !! pair.2)))
           (detect H I) in
  {| created := filter (fun p => (H !! p = None ∧ is_Some (I !! p)) ∧
                                 p ∉ renames.*2) paths;
     deleted := filter (fun p => (is_Some (H !! p) ∧ I !! p = None) ∧
                                 p ∉ renames.*1) paths;
     modified := filter (fun p => is_Some (H !! p) ∧ is_Some (I !! p) ∧
                                  H !! p ≠ I !! p) paths;
     renamed := renames;
     staged := filter (fun p => H !! p ≠ I !! p ∧
                                (p ∉ renames.*1) ∧ (p ∉ renames.*2)) paths |}.

Definition git_add (env : Env) : M unit :=
  fault (add_fault env);;
  modify (fun s => set_repo (fun r =>
    mkRepository (committed r) (disk s) (commits r) (remotes r) (pushes r)) s).

Definition git_status (env : Env) : M StatusResult :=
  fault (status_fault env);;
  gets (fun s => status_of (detect_renames env) (repo s)).

Definition git_commit (env : Env) (msg : string) : M unit :=
  fault (commit_fault env);;
  modify (set_repo (fun r =>
    mkRepository (staging r) (staging r) (commits r ++ [msg]) (remotes r) (pushes r))).

Definition git_getRemotes (env : Env) : M (list string) :=
  fault (getRemotes_fault env);;
  gets (fun s => remotes (repo s)).

Definition git_push (env : Env) : M unit :=
  fault (push_fault env);;
  modify (set_repo (fun r =>
    mkRepository (committed r) (staging r) (commits r) (remotes r) (S (pushes r)))).

Definition git_pull (env : Env) : M unit :=
  match pull_result env with
  | Merged worktree incoming =>
      modify (fun s => set_disk (fun _ => worktree) (set_repo (fun r =>
        mkRepository worktree worktree (commits r ++ incoming) (remotes r) (pushes r)) s))
  | PullFailed e worktree =>
      modify (set_disk (fun _ => worktree));;
      mthrow e
  end.

(** ** [GitService] ([src/gitService.ts]) *)

Definition getRepoPath (s : State) : option string := repoPath s.

Definition commitAndPush (env : Env) (message : string) : M unit :=
  bound ← gets git;
  if negb bound then mthrow (mkError "Git not initialized" None)
  else
    try_catch
      (git_add env;;
       status ← git_status env;
       if (length (staged status) =? 0)%nat && (length (modified status) =? 0)%nat
          && (length (created status) =? 0)%nat
       then mret tt
       else
         git_commit env message;;
         remotes ← git_getRemotes env;
         if (0 <? length remotes)%nat then git_push env else mret tt)
      (fun error => mthrow (mkError ("Git operation failed: " +:+ toString error) None)).

Definition pull (env : Env) : M unit :=
  bound ← gets git;
  if negb bound then mthrow (mkError "Git not initialized" None)
  else
    try_catch
      (remotes ← git_getRemotes env;
       if (0 <? length remotes)%nat then git_pull env else mret tt)
      (fun error => mthrow (mkError ("Git pull failed: " +:+ toString error) None)).

(** ** [AnnotationStorage] *)

(** [/[^a-zA-Z0-9-_]/]: the characters the replacement leaves alone. *)
Definition is_name_char (c : ascii) : bool :=
  let n := nat_of_ascii c in
  ((97 <=? n) && (n <=? 122) || (65 <=? n) && (n <=? 90) ||
   (48 <=? n) && (n <=? 57) || (n =? 45) || (n =? 95))%nat.

(** [s.replace(/[^a-zA-Z0-9-_]/g, '_')] *)
Definition replace_unsafe (s : string) : string :=
  string_of_list_ascii
    (map (fun c => if is_name_char c then c else "_"%char) (list_ascii_of_string s)).

Definition hashProjectPath (projectPath : string) : string :=
  let normalized := Path.normalize projectPath in
  let hash := substring 0 16 (Sha256.sha256_hex normalized) in
  let projectName := replace_unsafe (Path.basename normalized) in
  projectName +:+ "_" +:+ hash.

Definition getAnnotationFilePath (projectPath repoPath : string) : string :=
  let projectHash := hashProjectPath projectPath in
  let projectDir := Path.join2 repoPath projectHash in
  Path.join2 projectDir "annotations.json".

(** [this.annotations.get(projectPath) || []] *)
Definition getAllAnnotations (s : State) (projectPath : string) : list ref :=
  default [] (annotations s !! projectPath).

(** [a => a.field === v], on a reference. *)
Definition field_is (s : State) (field : Annotation.t -> string) (v : string)
    (a : ref) : bool :=
  match heap s !! a with
  | Some o => String.eqb (field o) v
  | None => false
  end.

Definition getAnnotationsForFile (s : State) (filePath projectPath : string) : list ref :=
  List.filter (field_is s Annotation.filePath filePath) (getAllAnnotations s projectPath).

Definition getAnnotationById (s : State) (id projectPath : string) : option ref :=
  List.find (field_is s Annotation.id id) (getAllAnnotations s projectPath).

(** The objects behind a list of references, as [JSON.stringify] sees
    them. *)
Definition values (s : State) (refs : list ref) : list Annotation.t :=
  omap (fun a => heap s !! a) refs.

Definition loadAnnotations (env : Env) (projectPath : string) : M unit :=
  configured ← gets getRepoPath;
  match truthy configured with
  | None => mret tt
  | Some repoPath =>
      let annotationFile := getAnnotationFilePath projectPath repoPath in
      try_catch
        (content ← fs_readFile env annotationFile;
         data ← JSON_parse content;
         loaded ← new_objects (AnnotationData.annotations data);
         modify (set_annotations (<[projectPath := loaded]>)))
        (fun error =>
           (if bool_decide (code error = Some "ENOENT") then mret tt
            else showWarningMessage ("Failed to load annotations: " +:+ message error));;
           modify (set_annotations (<[projectPath := []]>)))
  end.

Definition saveAnnotations (env : Env) (projectPath : string) : M unit :=
  configured ← gets getRepoPath;
  match truthy configured with
  | None => mthrow (mkError "Annotation repository not configured" None)
  | Some repoPath =>
      let annotationFile := getAnnotationFilePath projectPath repoPath in
      stored ← gets (fun s => values s (getAllAnnotations s projectPath));
      let data := AnnotationData.mk stored "1.0" in
      fs_mkdir env;;
      fs_writeFile env annotationFile (Document data)
  end.

(** [annotation.projectPath]; a reference outside the heap denotes no
    object, and reading through it throws. *)
Definition read_projectPath (annotation : ref) : M string :=
  o ← gets (fun s => heap s !! annotation);
  match o with
  | Some a => mret (Annotation.projectPath a)
  | None => mthrow (mkError "Cannot read properties of undefined" None)
  end.

Definition addAnnotation (env : Env) (annotation : ref) : M unit :=
  projectPath ← read_projectPath annotation;
  projectAnnotations ← gets (fun s => getAllAnnotations s projectPath);
  modify (set_annotations (<[projectPath := projectAnnotations ++ [annotation]]>));;
  saveAnnotations env projectPath.

Definition removeAnnotation (env : Env) (id projectPath : string) : M unit :=
  filtered ← gets (fun s =>
    List.filter (fun a => negb (field_is s Annotation.id id a))
                (getAllAnnotations s projectPath));
  modify (set_annotations (<[projectPath := filtered]>));;
  saveAnnotations env projectPath.

Definition set_text (newText : string) (a : Annotation.t) : Annotation.t :=
  Annotation.mk (Annotation.id a) (Annotation.filePath a) (Annotation.line a)
    (Annotation.column a) newText (Annotation.author a) (Annotation.timestamp a)
    (Annotation.projectPath a).

Definition set_timestamp (t : Z) (a : Annotation.t) : Annotation.t :=
  Annotation.mk (Annotation.id a) (Annotation.filePath a) (Annotation.line a)
    (Annotation.column a) (Annotation.text a) (Annotation.author a) t
    (Annotation.projectPath a).

Definition updateAnnotation (env : Env) (id projectPath newText : string) : M unit :=
  found ← gets (fun s => getAnnotationById s id projectPath);
  match found with
  | Some annotation =>
      modify (set_heap (alter (set_text newText) annotation));;
      modify (set_heap (alter (set_timestamp (now env)) annotation));;
      saveAnnotations env projectPath
  | None => mret tt
  end.

Definition sync (env : Env) (projectPath : string) : M unit :=
  pull env;;
  loadAnnotations env projectPath.

Definition commitChanges (env : Env) (projectPath message : string) : M unit :=
  saveAnnotations env projectPath;;
  commitAndPush env message.

(** ** Vocabulary of the specification *)

(** [l'] is the subsequence of [l] made of the elements that satisfy [P],
    in the order of [l]. *)
Inductive subsequence_where {A} (P : A -> Prop) : list A -> list A -> Prop :=
  | sw_nil : subsequence_where P [] []
  | sw_keep x l l' :
      P x -> subsequence_where P l l' -> subsequence_where P (x :: l) (x :: l')
  | sw_drop x l l' :
      ¬ P x -> subsequence_where P l l' -> subsequence_where P (x :: l) l'.

(** The reference [a] denotes an object whose [field] is [v]. *)
Definition has_field (s : State) (field : Annotation.t -> string) (v : string)
    (a : ref) : Prop :=
  ∃ o, heap s !! a = Some o ∧ field o = v.

(** The store operations that take a project path; [Add] takes it from
    the object it is given. *)
Inductive call :=
  | Load (projectPath : string)
  | Add (annotation : ref)
  | Update (id projectPath newText : string)
  | Remove (id projectPath : string)
  | Sync (projectPath : string).

Definition perform (env : Env) (c : call) : M unit :=
  match c with
  | Load projectPath => loadAnnotations env projectPath
  | Add annotation => addAnnotation env annotation
  | Update id projectPath newText => updateAnnotation env id projectPath newText
  | Remove id projectPath => removeAnnotation env id projectPath
  | Sync projectPath => sync env projectPath
  end.

Definition target (s : State) (c : call) : option string :=
  match c with
  | Load projectPath | Update _ projectPath _ | Remove _ projectPath
  | Sync projectPath => Some projectPath
  | Add annotation => Annotation.projectPath <$> heap s !! annotation
  end.

(** The error that reading and parsing the document at [file] raises,
    if any, given what is at [file]. *)
Definition read_or_parse_failure (env : Env) (file : string)
    (content : option FileContent) : option Error :=
  match readFile_fault env, content with
  | Some e, _ => Some e
  | None, None => Some (ENOENT file)
  | None, Some (Text _) => Some (mkError "Unexpected token in JSON" None)
  | None, Some (Document _) => None
  end.

(** No file of the last commit is missing from the working tree. *)
Definition nothing_deleted (s : State) : Prop :=
  ∀ path, is_Some (committed (repo s) !! path) -> is_Some (disk s !! path).


(** The state right after [git add .]: the index is the working tree. *)
Definition staged_all (s : State) : State :=
  set_repo (fun r =>
    mkRepository (committed r) (disk s) (commits r) (remotes r) (pushes r)) s.








(** ** Sentences of the specification, word for word

    Each is stated for one call, so that it can be tried on a given
    store. *)

(** "After [update(id, p, newText)] the annotation with [id] has the new
    text, unchanged other fields, and a strictly greater timestamp." *)
Definition update_refreshes_strictly (env : Env) (s : State)
    (id projectPath newText : string) : Prop :=
  ∀ a o, getAnnotationById s id projectPath = Some a -> heap s !! a = Some o ->
    ∃ o', heap (updateAnnotation env id projectPath newText s).1 !! a = Some o' ∧
      Annotation.text o' = newText ∧
      Annotation.id o' = Annotation.id o ∧
      Annotation.filePath o' = Annotation.filePath o ∧
      Annotation.line o' = Annotation.line o ∧
      Annotation.column o' = Annotation.column o ∧
      Annotation.author o' = Annotation.author o ∧
      Annotation.projectPath o' = Annotation.projectPath o ∧
      Annotation.timestamp o < Annotation.timestamp o'.

(** "An operation on project [p] leaves the collection of every other
    project [q] unchanged": the same references, denoting the same
    values. *)
Definition leaves_unchanged (env : Env) (c : call) (s : State) (q : string) : Prop :=
  target s c ≠ Some q ->
  let s' := (perform env c s).1 in
  getAllAnnotations s' q = getAllAnnotations s q ∧
  ∀ a, a ∈ getAllAnnotations s q -> heap s' !! a = heap s !! a.

(** "If the document of the project does not exist, [load] installs an
    empty collection and raises neither an error nor a warning." *)
Definition load_installs_empty_when_missing (env : Env) (projectPath : string)
    (s : State) : Prop :=
  (∀ repoPath, disk s !! getAnnotationFilePath projectPath repoPath = None) ->
  (loadAnnotations env projectPath s).2 = Returned tt ∧
  getAllAnnotations (loadAnnotations env projectPath s).1 projectPath = [] ∧
  warnings (loadAnnotations env projectPath s).1 = warnings s.

(** "Calling [commitChanges] twice in a row performs exactly one
    underlying commit." *)
Definition two_calls_one_commit (env1 env2 : Env) (projectPath m1 m2 : string)
    (s : State) : Prop :=
  let s1 := (commitChanges env1 projectPath m1 s).1 in
  let s2 := (commitChanges env2 projectPath m2 s1).1 in
  length (commits (repo s2)) = S (length (commits (repo s))).





(** ** Sample stores and environments *)

Definition note1 : Annotation.t :=
  Annotation.mk "id1" "a.ts" 10 0 "fix this" "Alice" 1000 "/tmp/proj".
Definition note2 : Annotation.t :=
  Annotation.mk "id2" "b.ts" 3 0 "why?" "Bob" 2000 "/tmp/proj".
Definition note3 : Annotation.t :=
  Annotation.mk "id3" "a.ts" 7 0 "todo" "Alice" 3000 "/tmp/proj".
Definition note4 : Annotation.t :=
  Annotation.mk "id4" "main.c" 1 0 "entry point" "Carol" 4000 "/tmp/other".

Definition empty_repository : Repository := mkRepository ∅ ∅ [] [] 0.

(** A rename detection that pairs an added path with a deleted path of
    the same content, each deleted path at most once. *)
Fixpoint pair_up (gone new : list (string * FileContent)) : list (string * string) :=
  match new with
  | [] => []
  | (to, content) :: rest =>
      match List.find (fun d => bool_decide (d.2 = content)) gone with
      | Some d =>
          (d.1, to) :: pair_up (List.filter (fun d' => negb (String.eqb d'.1 d.1)) gone) rest
      | None => pair_up gone rest
      end
  end.

Definition exact_renames (H I : tree) : list (string * string) :=
  pair_up (List.filter (fun e => bool_decide (I !! e.1 = None)) (map_to_list H))
          (List.filter (fun e => bool_decide (H !! e.1 = None)) (map_to_list I)).

(** An environment in which nothing fails and the clock reads [t]. *)
Definition calm (t : Z) : Env :=
  mkEnv t None None None None None None None None (Merged ∅ []) exact_renames.

(** An environment in which the pull is rejected. *)
Definition conflicting (t : Z) : Env :=
  mkEnv t None None None None None None None None
        (PullFailed (mkError "CONFLICT (content): Merge conflict" None) ∅)
        exact_renames.

(** An environment in which the pull brings [worktree] and the commits
    [incoming]. *)
Definition merging (t : Z) (worktree : tree) (incoming : list string) : Env :=
  mkEnv t None None None None None None None None (Merged worktree incoming)
        exact_renames.

(** One project holding two of three annotation objects, a configured
    repository without remotes, nothing on disk yet. *)
Definition sample_store : State :=
  mkState [note1; note2; note3] {[ "/tmp/proj" := [0; 1]%nat ]}
          true (Some "/repo") ∅ empty_repository [].

(** The same, once its annotations are saved and committed. *)
Definition committed_store : State :=
  (commitChanges (calm 2) "/tmp/proj" "Add annotation by Alice to a.ts" sample_store).1.

(** The same, with a remote. *)
Definition with_remote : State :=
  mkState [note1; note2; note3] {[ "/tmp/proj" := [0; 1]%nat ]}
          true (Some "/repo") ∅ (mkRepository ∅ ∅ [] ["origin"] 0) [].

(** A store whose only difference from the last commit is a file
    that was renamed. *)
Definition renamed_store : State :=
  mkState [] ∅ true (Some "/repo") {[ "/repo/b" := Text "x" ]}
          (mkRepository {[ "/repo/a" := Text "x" ]} {[ "/repo/a" := Text "x" ]}
             ["first"] [] 0) [].

(** Two projects. *)
Definition two_projects : State :=
  mkState [note1; note2; note3; note4]
          {[ "/tmp/proj" := [0; 1]%nat; "/tmp/other" := [3%nat] ]}
          true (Some "/repo") ∅ empty_repository [].

(** The tree another clone has pushed: the project's document with one
    annotation. *)
Definition pulled_tree : tree :=
  {[ getAnnotationFilePath "/tmp/proj" "/repo"
     := Document (AnnotationData.mk [note4] "1.0") ]}.

(** A store whose adapter was never initialized, after an
    [addAnnotation] that changed memory and then failed to save. *)
Definition unconfigured_store : State :=
  (addAnnotation (calm 1) 0%nat
     (mkState [note1] ∅ false None ∅ empty_repository [])).1.

(** A store built by store operations only, in which two projects hold
    the same object: the document of [/p] carries an annotation whose
    [projectPath] is [/q]; it is loaded, and the loaded object is added. *)
Definition stray : Annotation.t :=
  Annotation.mk "x" "a.ts" 1 0 "old" "Alice" 1000 "/q".

Definition stray_on_disk : State :=
  mkState [] ∅ true (Some "/repo")
          {[ getAnnotationFilePath "/p" "/repo" := Document (AnnotationData.mk [stray] "1.0") ]}
          empty_repository [].

Definition shared_store : State :=
  (addAnnotation (calm 2) 0%nat (loadAnnotations (calm 1) "/p" stray_on_disk).1).1.

(** ** Text helpers ([src/types.ts]) *)

Definition newline : ascii := "010"%char.

(** [s.indexOf(c)] for a needle of one character: the first position of
    [c], or -1. *)
Fixpoint indexOf (c : ascii) (s : list ascii) : Z :=
  match s with
  | [] => -1
  | x :: s' =>
      if Ascii.eqb x c then 0
      else let i := indexOf c s' in if (i <? 0)%Z then -1 else i + 1
  end.

(** [s.includes(c)] for a needle of one character. *)
Definition includes (c : ascii) (s : list ascii) : bool :=
  existsb (Ascii.eqb c) s.

(** [s.substring(start, end)]: each index is clamped to [0, s.length],
    and the two are swapped when out of order. *)
Definition clamp_index (len : nat) (i : Z) : nat :=
  Z.to_nat (Z.min (Z.max i 0) (Z.of_nat len)).

Definition js_substring (s : list ascii) (start stop : Z) : list ascii :=
  let a := clamp_index (length s) start in
  let b := clamp_index (length s) stop in
  take (Nat.max a b - Nat.min a b) (drop (Nat.min a b) s).

Definition isMultiLine (text : string) : bool :=
  includes newline (list_ascii_of_string text).

Definition getFirstLine (text : string) : string :=
  let firstNewline := indexOf newline (list_ascii_of_string text) in
  if (firstNewline =? -1)%Z then text
  else string_of_list_ascii (js_substring (list_ascii_of_string text) 0 firstNewline).

(** [truncateText(text, maxLength)]; the source gives [maxLength] the
    default 60. *)
Definition truncateText (text : string) (maxLength : Z) : string :=
  let firstLine := getFirstLine text in
  if (Z.of_nat (String.length firstLine) <=? maxLength)%Z then firstLine
  else string_of_list_ascii
         (js_substring (list_ascii_of_string firstLine) 0 (maxLength - 3)) +:+ "...".

(** ** Invariants of the store *)

(** The document of project [p] on disk holds what the collection of [p]
    holds in memory. *)
Definition mirrored (s : State) (p : string) : Prop :=
  ∃ r, truthy (getRepoPath s) = Some r ∧
       disk s !! getAnnotationFilePath p r
       = Some (Document (AnnotationData.mk (values s (getAllAnnotations s p)) "1.0")).

(** Memory, working tree, index and last commit agree on project [p]. *)
Definition settled (s : State) (p : string) : Prop :=
  mirrored s p ∧ committed (repo s) = disk s ∧ staging (repo s) = disk s.

(** No two annotations of the collection of [p] carry the same id. *)
Definition unique_ids (s : State) (p : string) : Prop :=
  NoDup (map Annotation.id (values s (getAllAnnotations s p))).

(** ** [GitService.initialize] and [GitService.getGitUserInfo] *)

Definition set_git (bound : bool) (s : State) : State :=
  mkState (heap s) (annotations s) bound (repoPath s) (disk s) (repo s) (warnings s).
Definition set_repoPath (path : option string) (s : State) : State :=
  mkState (heap s) (annotations s) (git s) path (disk s) (repo s) (warnings s).

(** What the path given to [initialize] and the git configuration
    answer: whether [fs.access] reaches the path, whether
    [simpleGit(repoPath)] throws, which it does when the path is not a
    directory, what [checkIsRepo] and [init] do, and what [git.raw]
    prints for a list of arguments. *)
Record Setup := mkSetup {
  access_fault : option Error;
  simpleGit_fault : option Error;
  checkIsRepo_result : outcome bool;
  init_fault : option Error;
  raw : list string -> outcome string
}.

Definition fs_access (setup : Setup) : M unit := fault (access_fault setup).

(** [this.git = simpleGit(repoPath)]: nothing is assigned when the
    constructor throws. *)
Definition simpleGit (setup : Setup) : M unit :=
  fault (simpleGit_fault setup);;
  modify (set_git true).

Definition git_checkIsRepo (setup : Setup) : M bool :=
  match checkIsRepo_result setup with
  | Returned isRepo => mret isRepo
  | Thrown e => mthrow e
  end.

(** [git init] in a directory that is no repository: no commit, nothing
    staged, no remote. *)
Definition git_init (setup : Setup) : M unit :=
  fault (init_fault setup);;
  modify (set_repo (fun _ => mkRepository ∅ ∅ [] [] 0)).

Definition git_raw (setup : Setup) (args : list string) : M string :=
  match raw setup args with
  | Returned out => mret out
  | Thrown e => mthrow e
  end.

Definition readme : string :=
"# Code Annotations Repository

This repository stores code annotations created by the VSCode Annotate extension.

## Structure

Annotations are stored in JSON files organized by project:
- Each project has its own subdirectory
- Annotations are stored in `annotations.json` files
".

Definition createReadme (env : Env) : M unit :=
  configured ← gets getRepoPath;
  match truthy configured with
  | None => mret tt
  | Some repoPath =>
      let readmePath := Path.join2 repoPath "README.md" in
      fs_writeFile env readmePath (Text readme)
  end.

Definition initialize (env : Env) (setup : Setup) (repoPath : string) : M unit :=
  modify (set_repoPath (Some repoPath));;
  try_catch (fs_access setup) (fun _ => fs_mkdir env);;
  simpleGit setup;;
  isRepo ← git_checkIsRepo setup;
  if negb isRepo then
    git_init setup;;
    createReadme env;;
    git_add env;;
    git_commit env "Initial commit"
  else mret tt.

(** The directory is there: [fs.access] or, failing that, [fs.mkdir] has
    gone through, and [simpleGit] has found a directory at the path. *)
Definition directory_ready (env : Env) (setup : Setup) : Prop :=
  (access_fault setup = None ∨ mkdir_fault env = None) ∧ simpleGit_fault setup = None.

(** Of the characters below 256, those [String.prototype.trim] removes:
    tab, line feed, vertical tab, form feed, carriage return, space and
    no-break space. *)
Definition is_white_space (c : ascii) : bool :=
  let n := nat_of_ascii c in
  ((9 <=? n) && (n <=? 13) || (n =? 32) || (n =? 160))%nat.

Fixpoint trim_start (s : list ascii) : list ascii :=
  match s with
  | c :: rest => if is_white_space c then trim_start rest else s
  | [] => []
  end.

Definition trim_chars (s : list ascii) : list ascii :=
  rev (trim_start (rev (trim_start s))).

Definition trim (s : string) : string :=
  string_of_list_ascii (trim_chars (list_ascii_of_string s)).

(** [x || fallback] on strings: the empty string is falsy. *)
Definition or_else (x fallback : string) : string :=
  if String.eqb x "" then fallback else x.

Module UserInfo.
Record t := mk { name : string; email : string }.
End UserInfo.

Definition executeGitCommand (setup : Setup) (args : list string) : M string :=
  bound ← gets git;
  if negb bound then mthrow (mkError "Git not initialized" None)
  else git_raw setup args.

Definition getGitUserInfo (setup : Setup) : M UserInfo.t :=
  try_catch
    (name ← executeGitCommand setup ["config"; "user.name"];
     email ← executeGitCommand setup ["config"; "user.email"];
     mret (UserInfo.mk (or_else (trim name) "Unknown")
                       (or_else (trim email) "unknown@example.com")))
    (fun _ =>
       showWarningMessage "Could not get git user info. Using defaults.";;
       mret (UserInfo.mk "Unknown" "unknown@example.com")).

(** A directory that is no repository yet, and a configuration that
    knows the user. *)
Definition fresh_directory : Setup :=
  mkSetup (Some (mkError "ENOENT: no such file or directory" (Some "ENOENT"))) None
          (Returned false) None
          (fun args =>
             if decide (args = ["config"; "user.name"]) then Returned "  Alice
"
             else if decide (args = ["config"; "user.email"]) then Returned ""
             else Thrown (mkError "unknown command" None)).

(** The store of a session that has not been configured yet. *)
Definition blank_store : State :=
  mkState [] ∅ false None ∅ (mkRepository ∅ ∅ [] [] 0) [].

(** ** [AnnotationCodeLensProvider] ([src/annotationCodeLensProvider.ts]) *)

Module Provider.

(** The provider: a [Map] from stored paths to arrays of annotation
    objects, in insertion order, a switch, and the number of times the
    change event has fired. *)
Record t := mk {
  annotations : list (string * list ref);
  enabled : bool;
  fired : nat
}.

(** [Map.prototype.set]: a key that is present keeps its place. *)
Fixpoint map_set (key : string) (value : list ref) (m : list (string * list ref))
    : list (string * list ref) :=
  match m with
  | [] => [(key, value)]
  | (k, v) :: rest =>
      if String.eqb k key then (k, value) :: rest else (k, v) :: map_set key value rest
  end.

Definition map_delete (key : string) (m : list (string * list ref))
    : list (string * list ref) :=
  List.filter (fun entry => negb (String.eqb entry.1 key)) m.

Fixpoint map_get (key : string) (m : list (string * list ref)) : option (list ref) :=
  match m with
  | [] => None
  | (k, v) :: rest => if String.eqb k key then Some v else map_get key rest
  end.

Definition create : t := mk [] true 0.

Definition setAnnotationsForFile (filePath : string) (refs : list ref) (p : t) : t :=
  mk (map_set filePath refs (annotations p)) (enabled p) (S (fired p)).

Definition clearAnnotationsForFile (filePath : string) (p : t) : t :=
  mk (map_delete filePath (annotations p)) (enabled p) (S (fired p)).

Definition clearAll (p : t) : t := mk [] (enabled p) (S (fired p)).

Definition setEnabled (on : bool) (p : t) : t := mk (annotations p) on (S (fired p)).

Definition refresh (p : t) : t := mk (annotations p) (enabled p) (S (fired p)).

(** [s.replace(/\\/g, '/')] *)
Definition backslash : ascii := "092"%char.
Definition slash : ascii := "/"%char.

Definition replace_backslashes (s : list ascii) : list ascii :=
  map (fun c => if Ascii.eqb c backslash then slash else c) s.

Fixpoint starts_with (prefix s : list ascii) : bool :=
  match prefix, s with
  | [], _ => true
  | c :: prefix', d :: s' => Ascii.eqb c d && starts_with prefix' s'
  | _ :: _, [] => false
  end.

(** [s.endsWith(suffix)] *)
Definition endsWith (s suffix : list ascii) : bool :=
  starts_with (rev suffix) (rev s).

Definition chars_eqb (s t : list ascii) : bool :=
  String.eqb (string_of_list_ascii s) (string_of_list_ascii t).

(** The test of the first loop: does the stored path stand for the
    document? *)
Definition matches (filePath storedPath : string) : bool :=
  let normalizedFilePath := replace_backslashes (list_ascii_of_string filePath) in
  let normalizedStoredPath := replace_backslashes (list_ascii_of_string storedPath) in
  endsWith normalizedFilePath normalizedStoredPath
  && (chars_eqb normalizedFilePath normalizedStoredPath
      || endsWith normalizedFilePath (slash :: normalizedStoredPath)).

(** The inner loop: push the annotations whose id has not been seen.  A
    reference without object cannot occur in a provider filled from the
    store; it is skipped. *)
Fixpoint push_unseen (h : list Annotation.t) (refs : list ref)
    (acc : list string * list ref) : list string * list ref :=
  match refs with
  | [] => acc
  | a :: rest =>
      match h !! a with
      | Some o =>
          if existsb (String.eqb (Annotation.id o)) acc.1
          then push_unseen h rest acc
          else push_unseen h rest (acc.1 ++ [Annotation.id o], acc.2 ++ [a])
      | None => push_unseen h rest acc
      end
  end.

(** The first loop: [seenIds] and [fileAnnotations] after all entries. *)
Fixpoint collect (h : list Annotation.t) (filePath : string)
    (entries : list (string * list ref)) (acc : list string * list ref)
    : list string * list ref :=
  match entries with
  | [] => acc
  | (storedPath, refs) :: rest =>
      if matches filePath storedPath
      then collect h filePath rest (push_unseen h refs acc)
      else collect h filePath rest acc
  end.

Definition fileAnnotations (h : list Annotation.t) (filePath : string) (p : t)
    : list ref :=
  (collect h filePath (annotations p) ([], [])).2.

Record CodeLens := mkCodeLens {
  range_line : Z;
  title : string;
  command : string;
  tooltip : string
}.

(** The icons U+1F4DD and U+1F4AC lie outside the code units covered:
    each stands here as the four characters of its UTF-8 encoding, and
    nothing looks inside them. *)
Definition memo : string :=
  string_of_list_ascii (map ascii_of_nat [240; 159; 147; 157]%nat).
Definition speech_balloon : string :=
  string_of_list_ascii (map ascii_of_nat [240; 159; 146; 172]%nat).

Definition line_feed : string := String newline "".

(** [Date.prototype.toLocaleString] depends on the locale of the host
    and is a parameter. *)
Definition createTooltip (toLocaleString : Z -> string) (o : Annotation.t) : string :=
  "Annotation by " +:+ Annotation.author o +:+ line_feed
  +:+ toLocaleString (Annotation.timestamp o) +:+ line_feed
  +:+ "" +:+ line_feed
  +:+ Annotation.text o.

(** The body of the second loop for one annotation: no lens when the
    line lies beyond the document. *)
Definition lens_of (toLocaleString : Z -> string) (lineCount : Z) (o : Annotation.t)
    : option CodeLens :=
  let line := Z.max 0 (Annotation.line o - 1) in
  if (line >=? lineCount)%Z then None
  else
    let hasMultipleLines := isMultiLine (Annotation.text o) in
    let displayText := truncateText (Annotation.text o) 80 in
    let icon := if hasMultipleLines then memo else speech_balloon in
    let moreIndicator := if hasMultipleLines then " [+]" else "" in
    Some (mkCodeLens line
            (icon +:+ " " +:+ Annotation.author o +:+ ": " +:+ displayText
             +:+ moreIndicator)
            "" (createTooltip toLocaleString o)).

Definition provideCodeLenses (toLocaleString : Z -> string) (h : list Annotation.t)
    (filePath : string) (lineCount : Z) (p : t) : list CodeLens :=
  if negb (enabled p) then []
  else
    omap (fun a => h !! a ≫= lens_of toLocaleString lineCount)
         (fileAnnotations h filePath p).

End Provider.

(** A provider that was given the annotations of one file. *)
Definition sample_provider : Provider.t :=
  Provider.setAnnotationsForFile "src/a.ts" [0; 2]%nat Provider.create.

(** The lens it shows for the first of them, where dates print as the
    empty string. *)
Definition sample_lens : Provider.CodeLens :=
  Provider.mkCodeLens 9 (Provider.speech_balloon +:+ " Alice: fix this") ""
    ("Annotation by Alice" +:+ Provider.line_feed +:+ "" +:+ Provider.line_feed
     +:+ "" +:+ Provider.line_feed +:+ "fix this").

(** * Properties *)

(** ** Running methods *)

Ltac unfold_M :=
  unfold fs_readFile, fs_mkdir, fs_writeFile, JSON_parse, new_objects,
    showWarningMessage, fault, gets, modify, try_catch,
    mbind, M_bind, mret, M_ret, mthrow, M_throw in *.

Lemma field_is_spec s field v a : field_is s field v a = true <-> has_field s field v a.
Proof.
  unfold field_is, has_field. destruct (heap s !! a) as [o|]; split.
  - intros E. apply String.eqb_eq in E. eauto.
  - intros (o' & E & F). apply String.eqb_eq. congruence.
  - discriminate.
  - intros (o' & E & _). discriminate.
Qed.

Lemma field_is_false s field v a : field_is s field v a = false <-> ¬ has_field s field v a.
Proof.
  rewrite <- field_is_spec. destruct (field_is s field v a); split; congruence.
Qed.

(** Saving touches the disk and nothing else. *)
Lemma saveAnnotations_memory env p s :
  let s' := (saveAnnotations env p s).1 in
  heap s' = heap s ∧ annotations s' = annotations s ∧ git s' = git s ∧
  repoPath s' = repoPath s ∧ repo s' = repo s ∧ warnings s' = warnings s.
Proof.
  unfold saveAnnotations. unfold_M. simpl.
  destruct (truthy (getRepoPath s)); simpl; [|tauto].
  destruct (mkdir_fault env); simpl; [tauto|].
  destruct (writeFile_fault env) as [[e [raw|]]|]; simpl; tauto.
Qed.

(** ** Lookup by file *)

Lemma filter_subsequence_where {A} (f : A -> bool) (P : A -> Prop) l :
  (∀ x, f x = true <-> P x) -> subsequence_where P l (List.filter f l).
Proof.
  intros Hf. induction l as [|x l IH]; simpl.
  - constructor.
  - destruct (f x) eqn:E.
    + apply sw_keep; [by apply Hf | done].
    + apply sw_drop; [|done]. rewrite <- Hf. congruence.
Qed.

(** C6. [getAnnotationsForFile] returns exactly the subsequence of the
    project's collection whose [filePath] is equal to the argument, in the
    order of the collection; every annotation it returns is of that
    file. *)
Theorem getAnnotationsForFile_exact s filePath projectPath :
  subsequence_where (has_field s Annotation.filePath filePath)
    (getAllAnnotations s projectPath)
    (getAnnotationsForFile s filePath projectPath)
  ∧ Forall (has_field s Annotation.filePath filePath)
      (getAnnotationsForFile s filePath projectPath).
Proof.
  split.
  - apply filter_subsequence_where. intros a. apply field_is_spec.
  - apply Forall_forall. intros a Ha.
    apply list_elem_of_In, filter_In in Ha as [_ Ha]. by apply field_is_spec.
Qed.

(** ** Update *)

Lemma find_none_iff {A} (f : A -> bool) l :
  List.find f l = None <-> Forall (fun x => f x = false) l.
Proof.
  induction l as [|x l IH]; simpl.
  - split; auto.
  - destruct (f x) eqn:E; split.
    + discriminate.
    + intros H. apply Forall_cons in H as [H _]. congruence.
    + intros H. constructor; [done | by apply IH].
    + intros H. apply Forall_cons in H as [_ H]. by apply IH.
Qed.

(** C8. Updating an identifier that no annotation of the project's
    collection carries returns normally and leaves the whole state, in
    memory and on disk, as it was. *)
Theorem updateAnnotation_absent env s id projectPath newText :
  Forall (fun a => ¬ has_field s Annotation.id id a) (getAllAnnotations s projectPath) ->
  updateAnnotation env id projectPath newText s = (s, Returned tt).
Proof.
  intros Habsent. unfold updateAnnotation, getAnnotationById. unfold_M.
  assert (List.find (field_is s Annotation.id id) (getAllAnnotations s projectPath) = None)
    as ->; [|done].
  apply find_none_iff. eapply Forall_impl; [exact Habsent|].
  intros a Ha. by apply field_is_false.
Qed.

Lemma updateAnnotation_absent_witness :
  updateAnnotation (calm 5000) "id3" "/tmp/proj" "new text" sample_store
  = (sample_store, Returned tt).
Proof.
  apply updateAnnotation_absent.
  repeat constructor; intros (o & E & F); vm_compute in E; by simplify_eq.
Defined.

Lemma find_first {A} (f : A -> bool) l x :
  x ∈ l -> f x = true -> ∃ y, List.find f l = Some y ∧ y ∈ l ∧ f y = true.
Proof.
  intros Hx Hf. destruct (List.find f l) as [y|] eqn:E.
  - apply find_some in E as [Hy E]. exists y. by rewrite list_elem_of_In.
  - apply find_none with (x := x) in E; [congruence|]. by apply list_elem_of_In.
Qed.

Lemma find_pointwise {A} (f g : A -> bool) l :
  (∀ x, f x = g x) -> List.find f l = List.find g l.
Proof.
  intros E. induction l as [|x l IH]; simpl; [done|]. by rewrite E, IH.
Qed.

(** The state an update leaves in memory, whether or not saving succeeds. *)
Lemma updateAnnotation_memory env s id p newText a :
  getAnnotationById s id p = Some a ->
  let s' := (updateAnnotation env id p newText s).1 in
  heap s' = alter (set_timestamp (now env)) a (alter (set_text newText) a (heap s))
  ∧ annotations s' = annotations s.
Proof.
  intros Hfound. unfold updateAnnotation. unfold_M. rewrite Hfound. simpl.
  match goal with
  | |- context [saveAnnotations env p ?s0] =>
      pose proof (saveAnnotations_memory env p s0) as (Hh & Ha & _);
      destruct (saveAnnotations env p s0) as [s1 [[]|e]]
  end; simpl in *; by rewrite Hh, Ha.
Qed.

Lemma updateAnnotation_heap_lookup env s id p newText a b :
  getAnnotationById s id p = Some a ->
  heap (updateAnnotation env id p newText s).1 !! b
  = if decide (a = b)
    then (fun o => set_timestamp (now env) (set_text newText o)) <$> heap s !! b
    else heap s !! b.
Proof.
  intros Hfound.
  destruct (updateAnnotation_memory env s id p newText a Hfound) as [-> _].
  case_decide as E.
  - subst b. rewrite !list_lookup_alter_eq, <- option_fmap_compose. reflexivity.
  - by rewrite !list_lookup_alter_ne.
Qed.

Lemma updateAnnotation_keeps_field env s id p newText a field v b :
  getAnnotationById s id p = Some a ->
  (∀ o, field (set_timestamp (now env) (set_text newText o)) = field o) ->
  field_is (updateAnnotation env id p newText s).1 field v b = field_is s field v b.
Proof.
  intros Hfound Hfield. unfold field_is.
  rewrite (updateAnnotation_heap_lookup _ _ _ _ _ a) by done.
  case_decide; [|done]. destruct (heap s !! b); simpl; [|done]. by rewrite Hfield.
Qed.

(** C2, as the code has it.  When the project's collection holds an
    annotation with identifier [id], [updateAnnotation] mutates the first
    such object: its text becomes [newText], its timestamp becomes the
    clock reading of the call, every other field keeps its value, and the
    object stays where it was in the collection. *)
Theorem updateAnnotation_present env s id projectPath newText :
  (∃ b, b ∈ getAllAnnotations s projectPath ∧ has_field s Annotation.id id b) ->
  let s' := (updateAnnotation env id projectPath newText s).1 in
  ∃ a o o',
    getAnnotationById s id projectPath = Some a ∧
    heap s !! a = Some o ∧ Annotation.id o = id ∧
    heap s' !! a = Some o' ∧
    getAllAnnotations s' projectPath = getAllAnnotations s projectPath ∧
    getAnnotationById s' id projectPath = Some a ∧
    Annotation.text o' = newText ∧
    Annotation.timestamp o' = now env ∧
    Annotation.id o' = Annotation.id o ∧
    Annotation.filePath o' = Annotation.filePath o ∧
    Annotation.line o' = Annotation.line o ∧
    Annotation.column o' = Annotation.column o ∧
    Annotation.author o' = Annotation.author o ∧
    Annotation.projectPath o' = Annotation.projectPath o.
Proof.
  intros (b & Hb & Hid) s'.
  apply field_is_spec in Hid.
  destruct (find_first _ _ _ Hb Hid) as (a & Hfound & Ha & Hida).
  apply field_is_spec in Hida as (o & Ho & Hido).
  exists a, o, (set_timestamp (now env) (set_text newText o)).
  assert (getAllAnnotations s' projectPath = getAllAnnotations s projectPath) as Hcoll.
  { unfold getAllAnnotations, s'.
    by destruct (updateAnnotation_memory env s id projectPath newText a Hfound) as [_ ->]. }
  split_and!; try done.
  - unfold s'. rewrite (updateAnnotation_heap_lookup _ _ _ _ _ a) by done.
    rewrite decide_True by done. by rewrite Ho.
  - unfold getAnnotationById. rewrite Hcoll.
    rewrite <- Hfound. unfold getAnnotationById.
    apply find_pointwise. intros c.
    by apply (updateAnnotation_keeps_field _ _ _ _ _ a).
Qed.

Lemma updateAnnotation_present_witness :
  ∃ a o o',
    getAnnotationById sample_store "id2" "/tmp/proj" = Some a ∧
    heap sample_store !! a = Some o ∧
    heap (updateAnnotation (calm 5000) "id2" "/tmp/proj" "because" sample_store).1 !! a
      = Some o' ∧
    Annotation.text o' = "because" ∧ Annotation.timestamp o' = 5000.
Proof.
  destruct (updateAnnotation_present (calm 5000) sample_store "id2" "/tmp/proj" "because")
    as (a & o & o' & H).
  - exists 1%nat. split; [vm_compute; set_solver|].
    exists note2. by vm_compute.
  - exists a, o, o'. tauto.
Defined.

(** C2, counterexample: when the clock reads what the annotation already
    carries, the timestamp does not increase. *)
Lemma update_timestamp_not_strict :
  ¬ update_refreshes_strictly (calm 1000) sample_store "id1" "/tmp/proj" "new text".
Proof.
  intros H. destruct (H 0%nat note1) as (o' & Ho' & _ & _ & _ & _ & _ & _ & _ & Hlt);
    [by vm_compute..|].
  vm_compute in Ho'. simplify_eq. vm_compute in Hlt. discriminate.
Qed.

(** ** Add and remove *)

Lemma addAnnotation_memory env s a o :
  heap s !! a = Some o ->
  let s' := (addAnnotation env a s).1 in
  heap s' = heap s ∧
  annotations s' = <[Annotation.projectPath o :=
                      getAllAnnotations s (Annotation.projectPath o) ++ [a]]> (annotations s).
Proof.
  intros Ho. unfold addAnnotation, read_projectPath. unfold_M. simpl. rewrite Ho. simpl.
  match goal with
  | |- context [saveAnnotations env ?p ?s0] =>
      pose proof (saveAnnotations_memory env p s0) as (Hh & Ha & _);
      destruct (saveAnnotations env p s0) as [s1 [[]|e]]
  end; simpl in *; by rewrite Hh, Ha.
Qed.

Lemma addAnnotation_dangling env s a :
  heap s !! a = None -> (addAnnotation env a s).1 = s.
Proof.
  intros Ho. unfold addAnnotation, read_projectPath. unfold_M. simpl. by rewrite Ho.
Qed.

Lemma removeAnnotation_memory env s id p :
  let s' := (removeAnnotation env id p s).1 in
  heap s' = heap s ∧
  annotations s' = <[p := List.filter (fun a => negb (field_is s Annotation.id id a))
                            (getAllAnnotations s p)]> (annotations s).
Proof.
  unfold removeAnnotation. unfold_M. simpl.
  match goal with
  | |- context [saveAnnotations env ?p ?s0] =>
      pose proof (saveAnnotations_memory env p s0) as (Hh & Ha & _);
      destruct (saveAnnotations env p s0) as [s1 [[]|e]]
  end; simpl in *; by rewrite Hh, Ha.
Qed.

Lemma filter_all {A} (f : A -> bool) l :
  Forall (fun x => f x = true) l -> List.filter f l = l.
Proof.
  induction 1 as [|x l Hx _ IH]; simpl; [done|]. by rewrite Hx, IH.
Qed.

(** C5. Adding an annotation object whose identifier is new to its
    project's collection and then removing that identifier from that
    project gives back the collection there was before the add; no
    object is modified on the way.  This holds whether or not the two
    saves succeed. *)
Theorem add_then_remove env1 env2 s a o :
  heap s !! a = Some o ->
  Forall (fun b => ¬ has_field s Annotation.id (Annotation.id o) b)
         (getAllAnnotations s (Annotation.projectPath o)) ->
  let s1 := (addAnnotation env1 a s).1 in
  let s2 := (removeAnnotation env2 (Annotation.id o) (Annotation.projectPath o) s1).1 in
  getAllAnnotations s2 (Annotation.projectPath o)
  = getAllAnnotations s (Annotation.projectPath o)
  ∧ heap s2 = heap s.
Proof.
  intros Ho Hfresh s1 s2.
  destruct (addAnnotation_memory env1 s a o Ho) as [Hh1 Ha1]. fold s1 in Hh1, Ha1.
  destruct (removeAnnotation_memory env2 s1 (Annotation.id o) (Annotation.projectPath o))
    as [Hh2 Ha2]. fold s2 in Hh2, Ha2.
  split; [|congruence].
  unfold getAllAnnotations at 1. rewrite Ha2, lookup_insert_eq. simpl.
  unfold getAllAnnotations at 1. rewrite Ha1, lookup_insert_eq. simpl.
  rewrite List.filter_app. simpl.
  assert (∀ b, field_is s1 Annotation.id (Annotation.id o) b
               = field_is s Annotation.id (Annotation.id o) b) as Hsame.
  { intros b. unfold field_is. by rewrite Hh1. }
  rewrite Hsame.
  assert (field_is s Annotation.id (Annotation.id o) a = true) as ->.
  { apply field_is_spec. by exists o. }
  simpl. rewrite app_nil_r. apply filter_all.
  eapply Forall_impl; [exact Hfresh|]. intros b Hb. simpl in Hb.
  rewrite Hsame. apply field_is_false in Hb. by rewrite Hb.
Qed.

Lemma add_then_remove_witness :
  getAllAnnotations
    (removeAnnotation (calm 2) "id3" "/tmp/proj"
       (addAnnotation (calm 1) 2%nat sample_store).1).1 "/tmp/proj"
  = [0; 1]%nat.
Proof.
  apply (add_then_remove (calm 1) (calm 2) sample_store 2%nat note3).
  - reflexivity.
  - repeat constructor; intros (o & E & F); vm_compute in E; by simplify_eq.
Defined.

(** ** Load and sync *)

Lemma loadAnnotations_memory env p s :
  let s' := (loadAnnotations env p s).1 in
  (loadAnnotations env p s).2 = Returned tt ∧
  (∃ fresh, heap s' = heap s ++ fresh) ∧
  (∀ q, q ≠ p -> annotations s' !! q = annotations s !! q) ∧
  git s' = git s ∧ repoPath s' = repoPath s ∧ disk s' = disk s ∧ repo s' = repo s.
Proof.
  unfold loadAnnotations. unfold_M. simpl.
  destruct (truthy (getRepoPath s)) as [r|]; simpl.
  2: { split_and!; try done. exists []. by rewrite app_nil_r. }
  destruct (readFile_fault env) as [e|]; simpl.
  { destruct (bool_decide (code e = Some "ENOENT")); simpl;
      (split_and!; try done; [exists []; by rewrite app_nil_r|]);
      intros q Hq; by rewrite lookup_insert_ne. }
  destruct (disk s !! getAnnotationFilePath p r) as [content|]; simpl.
  2: { split_and!; try done; [exists []; by rewrite app_nil_r|].
       intros q Hq. by rewrite lookup_insert_ne. }
  destruct content as [data|raw]; simpl.
  - split_and!; try done; [by eexists|].
    intros q Hq. by rewrite lookup_insert_ne.
  - split_and!; try done; [exists []; by rewrite app_nil_r|].
    intros q Hq. by rewrite lookup_insert_ne.
Qed.

Lemma pull_memory env s :
  let s' := (pull env s).1 in
  heap s' = heap s ∧ annotations s' = annotations s ∧ git s' = git s ∧
  repoPath s' = repoPath s ∧ warnings s' = warnings s.
Proof.
  unfold pull, git_getRemotes, git_pull. unfold_M. simpl.
  destruct (git s) eqn:Hgit; simpl; [|done].
  destruct (getRemotes_fault env); simpl; [done|].
  destruct (0 <? length (remotes (repo s)))%nat; simpl; [|done].
  destruct (pull_result env); simpl; done.
Qed.

(** C1, counterexample: with no repository path configured no document
    exists anywhere, yet [load] leaves the collection that is in memory
    where it is instead of installing an empty one. *)
Lemma load_unconfigured_keeps_collection :
  ¬ load_installs_empty_when_missing (calm 2) "/tmp/proj" unconfigured_store.
Proof.
  intros H. destruct H as (_ & Hempty & _).
  - intros repoPath. reflexivity.
  - vm_compute in Hempty. discriminate.
Qed.

(** C1, as the code has it.  [loadAnnotations] never throws.  With a
    repository path configured: if reading the document fails with
    file-not-found (ENOENT), which is what reading a document that does
    not exist gives unless the read fails for another reason, it
    installs an empty collection and shows no warning; if reading fails
    with any other error, whether the document exists or not, or its
    text does not parse, it installs an empty collection and shows one
    warning carrying the error's message.  With no repository path
    configured it returns at once and changes nothing. *)
Theorem loadAnnotations_degrades env projectPath s :
  let s' := (loadAnnotations env projectPath s).1 in
  (loadAnnotations env projectPath s).2 = Returned tt
  ∧ (truthy (getRepoPath s) = None -> s' = s)
  ∧ (∀ repoPath, truthy (getRepoPath s) = Some repoPath ->
       let file := getAnnotationFilePath projectPath repoPath in
       (disk s !! file = None -> readFile_fault env = None ->
          annotations s' !! projectPath = Some [] ∧ heap s' = heap s ∧
          warnings s' = warnings s)
       ∧ (∀ e, read_or_parse_failure env file (disk s !! file) = Some e ->
            code e = Some "ENOENT" ->
            annotations s' !! projectPath = Some [] ∧ heap s' = heap s ∧
            warnings s' = warnings s)
       ∧ (∀ e, read_or_parse_failure env file (disk s !! file) = Some e ->
            code e ≠ Some "ENOENT" ->
            annotations s' !! projectPath = Some [] ∧ heap s' = heap s ∧
            warnings s' = warnings s ++ ["Failed to load annotations: " +:+ message e])).
Proof.
  intros s'. split; [apply loadAnnotations_memory|].
  unfold s', loadAnnotations. unfold_M. simpl. split.
  - by intros ->.
  - intros r ->. simpl. split_and!.
    + intros Hnone Hread. rewrite Hread. simpl. rewrite Hnone. simpl.
      by rewrite lookup_insert_eq.
    + intros e Hfail Hcode. unfold read_or_parse_failure in Hfail.
      destruct (readFile_fault env) as [e'|]; simpl.
      * simplify_eq. rewrite bool_decide_eq_true_2 by done. simpl.
        by rewrite lookup_insert_eq.
      * destruct (disk s !! getAnnotationFilePath projectPath r) as [[data|raw]|];
          simpl; simplify_eq; simpl in *; try done; by rewrite lookup_insert_eq.
    + intros e Hfail Hcode. unfold read_or_parse_failure in Hfail.
      destruct (readFile_fault env) as [e'|]; simpl.
      * simplify_eq. rewrite bool_decide_eq_false_2 by done. simpl.
        by rewrite lookup_insert_eq.
      * destruct (disk s !! getAnnotationFilePath projectPath r) as [[data|raw]|];
          simpl; simplify_eq; simpl in *; try done; by rewrite lookup_insert_eq.
Qed.

Lemma loadAnnotations_degrades_witness :
  annotations (loadAnnotations (calm 2) "/tmp/proj" sample_store).1 !! "/tmp/proj"
  = Some []
  ∧ warnings (loadAnnotations (calm 2) "/tmp/proj" sample_store).1 = [].
Proof.
  destruct (loadAnnotations_degrades (calm 2) "/tmp/proj" sample_store)
    as (_ & _ & H).
  destruct (H "/repo") as [Hmissing _]; [reflexivity|].
  destruct Hmissing as (Ha & _ & Hw); [reflexivity | reflexivity |].
  split; [exact Ha | exact Hw].
Defined.

(** C7. When the adapter's pull throws, [sync] throws the same error and
    stops there: the heap and every project's collection are what they
    were before the call.  The reload runs only on the state a successful
    pull leaves. *)
Theorem sync_pull_failure env projectPath s :
  (∀ s1 e, pull env s = (s1, Thrown e) ->
     sync env projectPath s = (s1, Thrown e) ∧
     heap s1 = heap s ∧ annotations s1 = annotations s)
  ∧ (∀ s1, pull env s = (s1, Returned tt) ->
       sync env projectPath s = loadAnnotations env projectPath s1).
Proof.
  split.
  - intros s1 e Hpull.
    pose proof (pull_memory env s) as (Hh & Ha & _). rewrite Hpull in Hh, Ha.
    unfold sync. unfold_M. by rewrite Hpull.
  - intros s1 Hpull. unfold sync. unfold_M. by rewrite Hpull.
Qed.

Lemma sync_pull_failure_witness :
  ∃ e, sync (conflicting 1) "/tmp/proj" with_remote = (with_remote, Thrown e)
       ∧ annotations with_remote !! "/tmp/proj" = Some [0; 1]%nat.
Proof.
  destruct (sync_pull_failure (conflicting 1) "/tmp/proj" with_remote) as [H _].
  eexists. split; [|reflexivity].
  eapply H. reflexivity.
Defined.

(** ** Frame *)

Lemma sync_memory env p s :
  let s' := (sync env p s).1 in
  (∃ fresh, heap s' = heap s ++ fresh) ∧
  (∀ q, q ≠ p -> annotations s' !! q = annotations s !! q).
Proof.
  pose proof (pull_memory env s) as (Hh & Ha & _).
  unfold sync. unfold_M. destruct (pull env s) as [s1 [[]|e]]; simpl in *.
  - pose proof (loadAnnotations_memory env p s1) as (_ & [fresh Hf] & Hq & _).
    split; [exists fresh; by rewrite Hf, Hh|].
    intros q Hne. by rewrite Hq, Ha.
  - split; [exists []; by rewrite app_nil_r|]. intros q _. by rewrite Ha.
Qed.

(** C10, counterexample: in a store built by [loadAnnotations] and
    [addAnnotation], projects [/p] and [/q] hold the same object; updating
    it through [/p] changes what [/q]'s collection contains. *)
Lemma update_reaches_other_project :
  ¬ leaves_unchanged (calm 3) (Update "x" "/p" "new") shared_store "/q".
Proof.
  intros H. destruct H as [_ H]; [by intros [=]|].
  assert (getAllAnnotations shared_store "/q" = [0%nat]) as Hq by (by vm_compute).
  assert (heap (perform (calm 3) (Update "x" "/p" "new") shared_store).1 !! 0%nat
          ≠ heap shared_store !! 0%nat) as Hne by (vm_compute; discriminate).
  apply Hne, H. rewrite Hq. left.
Qed.

(** C10, as the code has it.  An operation invoked with project path [p]
    leaves the entry of every other project [q] in the map untouched (the
    same array of the same references), and it leaves every existing
    object as it was, with one exception: [updateAnnotation] mutates the
    object it found in [p]'s collection.  So the content of [q]'s
    collection changes only if [q] holds that very object. *)
Theorem other_projects_untouched env c s q :
  target s c ≠ Some q ->
  let s' := (perform env c s).1 in
  annotations s' !! q = annotations s !! q
  ∧ ∀ a o, heap s !! a = Some o ->
      (∀ id p newText, c = Update id p newText -> getAnnotationById s id p ≠ Some a) ->
      heap s' !! a = Some o.
Proof.
  intros Hq s'. unfold s'. destruct c as [p|a|id p newText|id p|p]; simpl in *.
  - pose proof (loadAnnotations_memory env p s) as (_ & [fresh Hf] & Hframe & _).
    split; [apply Hframe; congruence|].
    intros a o Ho _. rewrite Hf. by apply lookup_app_l_Some.
  - destruct (heap s !! a) as [o|] eqn:Ho.
    + destruct (addAnnotation_memory env s a o Ho) as [Hh Ha]. rewrite Hh, Ha.
      split; [|done]. apply lookup_insert_ne. simpl in Hq. congruence.
    + by rewrite addAnnotation_dangling.
  - destruct (getAnnotationById s id p) as [b|] eqn:Hfound.
    + destruct (updateAnnotation_memory env s id p newText b Hfound) as [_ Ha].
      rewrite Ha. split; [done|]. intros a o Ho Hnot.
      rewrite (updateAnnotation_heap_lookup _ _ _ _ _ b) by done.
      rewrite decide_False; [done|]. intros ->. by eapply Hnot.
    + unfold updateAnnotation. unfold_M. by rewrite Hfound.
  - destruct (removeAnnotation_memory env s id p) as [Hh Ha]. rewrite Hh, Ha.
    split; [|done]. apply lookup_insert_ne. congruence.
  - pose proof (sync_memory env p s) as ([fresh Hf] & Hframe).
    split; [apply Hframe; congruence|].
    intros a o Ho _. rewrite Hf. by apply lookup_app_l_Some.
Qed.

Lemma other_projects_untouched_witness :
  annotations (updateAnnotation (calm 9) "id1" "/tmp/proj" "done" two_projects).1
    !! "/tmp/other" = Some [3%nat]
  ∧ heap (updateAnnotation (calm 9) "id1" "/tmp/proj" "done" two_projects).1 !! 3%nat
    = Some note4.
Proof.
  destruct (other_projects_untouched (calm 9) (Update "id1" "/tmp/proj" "done")
              two_projects "/tmp/other") as [Hmap Hobj].
  - simpl. intros E. discriminate.
  - split; [exact Hmap|]. apply Hobj; [reflexivity|].
    intros id p newText E. injection E as <- <- <-. vm_compute. discriminate.
Defined.

(** ** Commit *)

Lemma filter_none {A} (P : A -> Prop) `{∀ x, Decision (P x)} (l : list A) :
  (∀ x, x ∈ l -> ¬ P x) -> filter P l = [].
Proof.
  intros Hnone. destruct (filter P l) as [|x l'] eqn:E; [done|].
  assert (x ∈ filter P l) as Hx by (rewrite E; left).
  apply list_elem_of_filter in Hx as [HP Hx]. by destruct (Hnone x Hx).
Qed.

Lemma status_of_ext detect r r' :
  committed r = committed r' -> staging r = staging r' ->
  status_of detect r = status_of detect r'.
Proof. unfold status_of. by intros -> ->. Qed.

(** Git pairs deleted paths with added ones: where nothing is deleted
    nothing is renamed. *)
Lemma no_deletion_no_rename detect r :
  (∀ q, is_Some (committed r !! q) -> is_Some (staging r !! q)) ->
  renamed (status_of detect r) = [].
Proof.
  intros Hkept. unfold status_of. simpl. apply filter_none.
  intros pair _ [[Hsome Hnone] _]. apply Hkept in Hsome as [x Hx]. congruence.
Qed.

(** Every staged path is created, modified or deleted. *)
Lemma staged_classified detect r p :
  p ∈ staged (status_of detect r) ->
  p ∈ created (status_of detect r) ∨ p ∈ modified (status_of detect r)
  ∨ p ∈ deleted (status_of detect r).
Proof.
  unfold status_of. simpl. rewrite !list_elem_of_filter. intros [(Hne & Hs & Ht) Hp].
  destruct (committed r !! p) as [h|] eqn:EH, (staging r !! p) as [i|] eqn:EI.
  - right; left. split; [|done]. split_and!; eauto.
  - right; right. split; [|done]. split; [eauto | done].
  - left. split; [|done]. split; [eauto | done].
  - done.
Qed.

Lemma status_modified detect r p c c' :
  committed r !! p = Some c -> staging r !! p = Some c' -> c ≠ c' ->
  p ∈ modified (status_of detect r).
Proof.
  intros HH HI Hne. unfold status_of. simpl. apply list_elem_of_filter. split.
  - rewrite HH, HI. split_and!; eauto. congruence.
  - apply elem_of_elements. rewrite elem_of_union, !elem_of_dom. left. eauto.
Qed.

Lemma status_created detect r p :
  (∀ q, is_Some (committed r !! q) -> is_Some (staging r !! q)) ->
  committed r !! p = None -> is_Some (staging r !! p) ->
  p ∈ created (status_of detect r).
Proof.
  intros Hkept HH HI. pose proof (no_deletion_no_rename detect r Hkept) as Hnone.
  unfold status_of in *. simpl in *. apply list_elem_of_filter. split.
  - split; [done|]. rewrite Hnone. apply not_elem_of_nil.
  - apply elem_of_elements. rewrite elem_of_union, !elem_of_dom. by right.
Qed.

(** Where nothing is deleted, a status without modified and created
    paths is the status of an index that is the last commit. *)
Lemma quiet_status detect r :
  (∀ q, is_Some (committed r !! q) -> is_Some (staging r !! q)) ->
  modified (status_of detect r) = [] -> created (status_of detect r) = [] ->
  committed r = staging r.
Proof.
  intros Hkept Hm Hc. apply map_eq. intros p.
  destruct (committed r !! p) as [h|] eqn:EH, (staging r !! p) as [i|] eqn:EI.
  - destruct (decide (h = i)) as [->|Hne]; [done|]. exfalso.
    pose proof (status_modified detect r p h i EH EI Hne) as Hin.
    rewrite Hm in Hin. by apply elem_of_nil in Hin.
  - exfalso. destruct (Hkept p) as [x Hx]; [by rewrite EH|]. congruence.
  - exfalso. assert (p ∈ created (status_of detect r)) as Hin.
    { apply status_created; [done | done | by rewrite EI]. }
    rewrite Hc in Hin. by apply elem_of_nil in Hin.
  - done.
Qed.

Lemma status_clean detect r :
  committed r = staging r -> status_of detect r = mkStatus [] [] [] [] [].
Proof.
  intros HH. unfold status_of. cbv zeta. rewrite HH.
  f_equal; apply filter_none.
  - intros p _ [[E1 [x E2]] _]. congruence.
  - intros p _ [[[x E1] E2] _]. congruence.
  - intros p _ (_ & _ & E1). congruence.
  - intros pair _ [[[x E1] E2] _]. congruence.
  - intros p _ [E1 _]. congruence.
Qed.

Lemma length_eqb_0 {A} (l : list A) : (length l =? 0)%nat = true <-> l = [].
Proof. destruct l; simpl; split; congruence. Qed.

Lemma nothing_deleted_staged s :
  nothing_deleted s ->
  ∀ q, is_Some (committed (repo (staged_all s)) !! q) ->
       is_Some (staging (repo (staged_all s)) !! q).
Proof. intros H q. apply H. Qed.

Opaque status_of.

(** What a successful [commitAndPush] leaves behind: either it has
    committed the working tree, or it has found nothing staged, modified
    or created and has left the history alone. *)
Lemma commitAndPush_returned env msg s s1 :
  commitAndPush env msg s = (s1, Returned tt) ->
  heap s1 = heap s ∧ annotations s1 = annotations s ∧ repoPath s1 = repoPath s ∧
  disk s1 = disk s ∧ staging (repo s1) = disk s ∧
  ((committed (repo s1) = disk s ∧ commits (repo s1) = commits (repo s) ++ [msg])
   ∨ (committed (repo s1) = committed (repo s) ∧ commits (repo s1) = commits (repo s)
      ∧ staged (status_of (detect_renames env) (repo (staged_all s))) = []
      ∧ modified (status_of (detect_renames env) (repo (staged_all s))) = []
      ∧ created (status_of (detect_renames env) (repo (staged_all s))) = [])).
Proof.
  unfold commitAndPush, git_add, git_status, git_commit, git_getRemotes, git_push.
  unfold_M. simpl.
  destruct (git s); simpl; [|discriminate].
  destruct (add_fault env); simpl; [discriminate|].
  destruct (status_fault env); simpl; [discriminate|].
  change (status_of (detect_renames env) _)
    with (status_of (detect_renames env) (repo (staged_all s))).
  set (st := status_of (detect_renames env) (repo (staged_all s))).
  destruct (length (staged st) =? 0)%nat eqn:Hstaged,
    (length (modified st) =? 0)%nat eqn:Hmodified,
    (length (created st) =? 0)%nat eqn:Hcreated; simpl.
  1: { apply length_eqb_0 in Hstaged, Hmodified, Hcreated.
       intros E. simplify_eq. simpl. split_and!; try done. right. by split_and!. }
  all: destruct (commit_fault env); simpl; [discriminate|];
    destruct (getRemotes_fault env); simpl; [discriminate|];
    destruct (0 <? length (remotes (repo s)))%nat; simpl;
    [destruct (push_fault env); simpl; [discriminate|] |];
    intros E; simplify_eq; simpl; split_and!; try done; by left.
Qed.

(** Where no file of the last commit has gone, a successful
    [commitAndPush] leaves a last commit that is the working tree. *)
Lemma commitAndPush_committed env msg s s1 :
  nothing_deleted s ->
  commitAndPush env msg s = (s1, Returned tt) ->
  committed (repo s1) = disk s.
Proof.
  intros Hkept Hrun.
  apply commitAndPush_returned in Hrun
    as (_ & _ & _ & _ & _ & [[H _]|(HH & _ & _ & Hm & Hc)]); [done|].
  rewrite HH.
  apply (quiet_status (detect_renames env) (repo (staged_all s)));
    [by apply nothing_deleted_staged | done | done].
Qed.

(** On a repository whose last commit is the working tree
    [commitAndPush] creates no commit, whatever fails. *)
Lemma commitAndPush_clean env msg s :
  committed (repo s) = disk s ->
  commits (repo (commitAndPush env msg s).1) = commits (repo s).
Proof.
  intros HH.
  unfold commitAndPush, git_add, git_status, git_commit, git_getRemotes, git_push.
  unfold_M. simpl.
  destruct (git s); simpl; [|done].
  destruct (add_fault env); simpl; [done|].
  destruct (status_fault env); simpl; [done|].
  rewrite status_clean; done.
Qed.

(** When the status shows nothing staged, modified or created,
    [commitAndPush] creates no commit, whatever fails. *)
Lemma commitAndPush_quiet env msg s :
  staged (status_of (detect_renames env) (repo (staged_all s))) = [] ->
  modified (status_of (detect_renames env) (repo (staged_all s))) = [] ->
  created (status_of (detect_renames env) (repo (staged_all s))) = [] ->
  commits (repo (commitAndPush env msg s).1) = commits (repo s).
Proof.
  intros Hs Hm Hc.
  unfold commitAndPush, git_add, git_status, git_commit, git_getRemotes, git_push.
  unfold_M. simpl.
  destruct (git s); simpl; [|done].
  destruct (add_fault env); simpl; [done|].
  destruct (status_fault env); simpl; [done|].
  change (status_of (detect_renames env) _)
    with (status_of (detect_renames env) (repo (staged_all s))).
  by rewrite Hs, Hm, Hc.
Qed.

(** When the status shows a modified or a created path, a
    [commitAndPush] that returns has created the commit. *)
Lemma commitAndPush_records env msg s s1 path :
  path ∈ modified (status_of (detect_renames env) (repo (staged_all s)))
  ∨ path ∈ created (status_of (detect_renames env) (repo (staged_all s))) ->
  commitAndPush env msg s = (s1, Returned tt) ->
  committed (repo s1) = disk s ∧ commits (repo s1) = commits (repo s) ++ [msg].
Proof.
  intros Hpath Hrun.
  apply commitAndPush_returned in Hrun
    as (_ & _ & _ & _ & _ & [H|(_ & _ & _ & Hm & Hc)]); [done|].
  rewrite Hm, Hc in Hpath. destruct Hpath as [H|H]; by apply elem_of_nil in H.
Qed.

(** A file of the last commit that has other content in the working
    tree is modified; where nothing is deleted, a file that is not in
    the last commit is created. *)
Lemma difference_is_listed detect s path :
  committed (repo s) !! path ≠ disk s !! path ->
  is_Some (disk s !! path) ->
  is_Some (committed (repo s) !! path) ∨ nothing_deleted s ->
  path ∈ modified (status_of detect (repo (staged_all s)))
  ∨ path ∈ created (status_of detect (repo (staged_all s))).
Proof.
  intros Hne [c' Hdisk] Hcase.
  destruct (committed (repo s) !! path) as [c|] eqn:HH.
  - left. apply (status_modified _ _ _ c c'); [done | done | congruence].
  - right. destruct Hcase as [[x Hx]|Hkept]; [done|].
    apply status_created; [by apply nothing_deleted_staged | done | by eexists].
Qed.

Lemma saveAnnotations_returned env p s s1 :
  saveAnnotations env p s = (s1, Returned tt) ->
  ∃ r, truthy (getRepoPath s) = Some r ∧
       s1 = set_disk (<[getAnnotationFilePath p r :=
                          Document (AnnotationData.mk (values s (getAllAnnotations s p)) "1.0")]>) s.
Proof.
  unfold saveAnnotations. unfold_M. simpl.
  destruct (truthy (getRepoPath s)) as [r|]; simpl; [|discriminate].
  destruct (mkdir_fault env); simpl; [discriminate|].
  destruct (writeFile_fault env) as [[e [raw|]]|]; simpl; [discriminate..|].
  intros E. simplify_eq. by exists r.
Qed.

Lemma stored_values_same s s' p :
  heap s' = heap s -> annotations s' = annotations s ->
  values s' (getAllAnnotations s' p) = values s (getAllAnnotations s p).
Proof. unfold values, getAllAnnotations. by intros -> ->. Qed.

Lemma nothing_deleted_insert s file content :
  nothing_deleted s -> nothing_deleted (set_disk (<[file := content]>) s).
Proof.
  intros Hkept path Hsome. simpl.
  destruct (decide (file = path)) as [->|Hne].
  - rewrite lookup_insert_eq. by eexists.
  - rewrite lookup_insert_ne by done. by apply Hkept.
Qed.

(** C3, counterexample: on a store whose document is already committed,
    two calls of [commitChanges] in a row create no commit at all. *)
Lemma two_calls_no_commit :
  ¬ two_calls_one_commit (calm 3) (calm 4) "/tmp/proj" "first" "second" committed_store.
Proof. unfold two_calls_one_commit. vm_compute. discriminate. Qed.

(** C3, as the code has it.  When, after staging, no path is created,
    modified or deleted, [commitAndPush] returns normally without creating
    a commit.  Consequently, once a call of [commitChanges] has returned
    normally, a second call with no mutation in between, on the same git,
    creates no commit, whatever happens during it.  The two calls
    together create exactly one commit, made by the first, when the first
    call finds something to record, that is, when the document of the
    last commit is not the one memory asks for and either it was there,
    so that it is modified in place, or no file of the last commit has
    gone, so that nothing can pass for a rename; they create none when
    the last commit already holds the working tree the first call
    leaves. *)
Theorem commit_is_idempotent :
  (∀ env message s,
     git s = true -> add_fault env = None -> status_fault env = None ->
     let status := status_of (detect_renames env) (repo (staged_all s)) in
     created status = [] -> modified status = [] -> deleted status = [] ->
     commitAndPush env message s = (staged_all s, Returned tt) ∧
     commits (repo (staged_all s)) = commits (repo s))
  ∧ (∀ env1 env2 projectPath m1 m2 s s1,
       detect_renames env2 = detect_renames env1 ->
       commitChanges env1 projectPath m1 s = (s1, Returned tt) ->
       let s2 := (commitChanges env2 projectPath m2 s1).1 in
       commits (repo s2) = commits (repo s1)
       ∧ (commits (repo s1) = commits (repo s) ∨
          commits (repo s1) = commits (repo s) ++ [m1])
       ∧ (∀ repoPath, truthy (getRepoPath s) = Some repoPath ->
            let file := getAnnotationFilePath projectPath repoPath in
            let document :=
              Document (AnnotationData.mk (values s (getAllAnnotations s projectPath)) "1.0") in
            (committed (repo s) !! file ≠ Some document ->
             is_Some (committed (repo s) !! file) ∨ nothing_deleted s ->
             commits (repo s2) = commits (repo s) ++ [m1])
            ∧ (committed (repo s) = <[file := document]> (disk s) ->
               commits (repo s2) = commits (repo s)))).
Proof.
  split.
  - intros env message s Hgit Hadd Hstatus status Hc Hm Hd. split; [|done].
    assert (staged status = []) as Hs.
    { destruct (staged status) as [|x l] eqn:E; [done|].
      assert (x ∈ staged status) as Hx by (rewrite E; left).
      apply staged_classified in Hx. fold status in Hx.
      rewrite Hc, Hm, Hd in Hx. destruct Hx as [Hx|[Hx|Hx]]; inversion Hx. }
    unfold commitAndPush, git_add, git_status. unfold_M. simpl.
    rewrite Hgit. simpl. rewrite Hadd. simpl. rewrite Hstatus. simpl.
    change (status_of (detect_renames env) _) with status. by rewrite Hs, Hm, Hc.
  - intros env1 env2 p m1 m2 s s1 Hdetect Hfirst s2.
    unfold commitChanges in Hfirst. unfold_M.
    destruct (saveAnnotations env1 p s) as [sa [[]|e]] eqn:Hsave; [|discriminate].
    apply saveAnnotations_returned in Hsave as (r & Hr & ->).
    set (file := getAnnotationFilePath p r) in *.
    set (document := Document (AnnotationData.mk (values s (getAllAnnotations s p)) "1.0"))
      in *.
    set (sa := set_disk (<[file := document]>) s) in *.
    pose proof (commitAndPush_returned _ _ _ _ Hfirst)
      as (Hh & Ha & Hrp & Hd & HI & Hcases).
    assert (commits (repo s2) = commits (repo s1)) as Hsecond.
    { unfold s2, commitChanges. unfold_M.
      pose proof (saveAnnotations_memory env2 p s1) as (_ & _ & _ & _ & Hrepo & _).
      destruct (saveAnnotations env2 p s1) as [sb [[]|e]] eqn:Hsave2; simpl in *.
      2: { by rewrite Hrepo. }
      apply saveAnnotations_returned in Hsave2 as (r' & Hr' & ->).
      assert (r' = r) as ->.
      { unfold getRepoPath in *. rewrite Hrp in Hr'. simpl in Hr'. congruence. }
      rewrite (stored_values_same s s1) by done. fold file document.
      assert (<[file := document]> (disk s1) = disk s1) as Hsame.
      { apply insert_id. rewrite Hd. simpl. by rewrite lookup_insert_eq. }
      destruct Hcases as [[HH _]|(HH & _ & Hs & Hm & Hc)].
      - rewrite commitAndPush_clean; simpl; [done|]. by rewrite Hsame, HH, Hd.
      - rewrite commitAndPush_quiet; simpl; [done|..];
          rewrite Hdetect;
          rewrite (status_of_ext _ _ (repo (staged_all sa)))
            by (simpl; rewrite ?Hsame, ?HH, ?Hd; done); done. }
    split_and!; [done | |].
    + destruct Hcases as [[_ H]|(_ & H & _)]; [by right | by left].
    + intros r' Hr'. assert (r' = r) as -> by congruence. fold file document. split.
      * intros Hold Hcase. rewrite Hsecond.
        destruct (commitAndPush_records env1 m1 sa s1 file) as [_ H]; [|done|done].
        apply difference_is_listed.
        -- simpl. by rewrite lookup_insert_eq.
        -- simpl. rewrite lookup_insert_eq. by eexists.
        -- destruct Hcase as [H|H]; [by left | right].
           by apply nothing_deleted_insert.
      * intros Hheld. rewrite Hsecond.
        pose proof (commitAndPush_clean env1 m1 sa) as Hq.
        rewrite Hfirst in Hq. simpl in Hq. by apply Hq.
Qed.

Transparent status_of.

Lemma commit_is_idempotent_witness :
  commits (repo (commitChanges (calm 3) "/tmp/proj" "again" committed_store).1)
  = ["Add annotation by Alice to a.ts"].
Proof.
  destruct commit_is_idempotent as [_ H].
  destruct (H (calm 2) (calm 3) "/tmp/proj" "Add annotation by Alice to a.ts" "again"
              sample_store committed_store) as (Hsecond & _).
  - reflexivity.
  - by vm_compute.
  - rewrite Hsecond. by vm_compute.
Defined.

(** ** Paths *)


































(** *** Strings and lists of characters *)


Lemma chars_of_append s t :
  list_ascii_of_string (s +:+ t) = list_ascii_of_string s ++ list_ascii_of_string t.
Proof. induction s as [|c s IH]; simpl; [done|]. by rewrite IH. Qed.

Lemma string_of_length l : String.length (string_of_list_ascii l) = length l.
Proof. induction l as [|c l IH]; simpl; [done|]. by rewrite IH. Qed.




(** *** The digest *)






(** ** The path hasher *)

Example sha256_abc :
  Sha256.sha256_hex "abc"
  = "ba7816bf8f01cfea414140de5dae2223b00361a396177a9cb410ff61f20015ad".
Proof. by vm_compute. Qed.

Example sha256_two_blocks :
  Sha256.sha256_hex "abcdbcdecdefdefgefghfghighijhijkijkljklmklmnlmnomnopnopq"
  = "248d6a61d20638b8e5c026930c3e6039a33ce45964ff2167f6ecedd419db06c1".
Proof. by vm_compute. Qed.

Example normalize_examples :
  map Path.normalize ["/foo/bar//baz/asdf/quux/.."; ""; "a/../"; "../a/../.."; "/a/b/"; "/.."]
  = ["/foo/bar/baz/asdf"; "."; "./"; "../.."; "/a/b/"; "/"].
Proof. by vm_compute. Qed.

Example round_constants :
  (nth 0 Sha256.K 0, nth 63 Sha256.K 0, Sha256.ra Sha256.init)
  = (0x428a2f98, 0xc67178f2, 0x6a09e667).
Proof. by vm_compute. Qed.

Example location_example :
  getAnnotationFilePath "/tmp/my-proj" "/repo"
  = "/repo/my-proj_9b2e6c84a1fa4a2f/annotations.json".
Proof. by vm_compute. Qed.

Example name_characters :
  map is_name_char ["a"; "Z"; "5"; "-"; "_"; "."; " "; "/"]%char
  = [true; true; true; true; true; false; false; false].
Proof. reflexivity. Qed.

(** A code unit from 128 to 255 is one character for the regular
    expression and two bytes for the digest: U+00E9 in [/tmp/café]. *)
Example location_beyond_ascii :
  getAnnotationFilePath ("/tmp/caf" +:+ String (ascii_of_nat 233) "") "/repo"
  = "/repo/caf__0873cca0bdcc4a24/annotations.json".
Proof. by vm_compute. Qed.

(** [path.normalize] keeps a trailing separator. *)
Example trailing_separator_matters :
  Path.normalize "/tmp/proj/" ≠ Path.normalize "/tmp/proj"
  ∧ getAnnotationFilePath "/tmp/proj/" "/repo" ≠ getAnnotationFilePath "/tmp/proj" "/repo".
Proof. split; vm_compute; discriminate. Qed.





(** *** Spellings of a path *)









(** * Further properties of the code *)

(** ** Text helpers *)

Lemma indexOf_range c s : -1 <= indexOf c s < Z.of_nat (length s).
Proof.
  induction s as [|x s IH]; simpl; [lia|].
  destruct (Ascii.eqb x c); [lia|].
  destruct (indexOf c s <? 0)%Z eqn:E; lia.
Qed.

Lemma indexOf_absent c s : indexOf c s = -1 <-> c ∉ s.
Proof.
  induction s as [|x s IH]; simpl.
  - split; [intros _; apply not_elem_of_nil | done].
  - pose proof (indexOf_range c s) as Hr.
    destruct (Ascii.eqb_spec x c) as [->|Hne].
    + split; [discriminate|]. intros H. destruct H. left.
    + rewrite not_elem_of_cons.
      destruct (indexOf c s <? 0)%Z eqn:E.
      * split; [|done]. intros _. split; [congruence|]. apply IH. lia.
      * split; [lia|]. intros [_ H]. apply IH in H. lia.
Qed.

Lemma indexOf_found c s :
  0 <= indexOf c s ->
  ∃ rest, s = take (Z.to_nat (indexOf c s)) s ++ c :: rest ∧
          c ∉ take (Z.to_nat (indexOf c s)) s.
Proof.
  induction s as [|x s IH]; simpl; [lia|].
  destruct (Ascii.eqb_spec x c) as [->|Hne].
  - intros _. exists s. split; [done | apply not_elem_of_nil].
  - destruct (indexOf c s <? 0)%Z eqn:E; [lia|]. intros _.
    destruct IH as (rest & Hs & Hfree); [lia|].
    exists rest. replace (Z.to_nat (indexOf c s + 1)) with (S (Z.to_nat (indexOf c s))) by lia.
    simpl. split; [by rewrite <- Hs|].
    apply not_elem_of_cons. split; [congruence | done].
Qed.

Lemma includes_spec c s : includes c s = true <-> c ∈ s.
Proof.
  unfold includes. rewrite existsb_exists. split.
  - intros (x & Hx & E). apply Ascii.eqb_eq in E. subst. by apply list_elem_of_In.
  - intros H. exists c. split; [by apply list_elem_of_In | apply Ascii.eqb_refl].
Qed.

Lemma js_substring_prefix s k : js_substring s 0 k = take (Z.to_nat k) s.
Proof.
  unfold js_substring, clamp_index.
  replace (Z.to_nat (Z.min (Z.max 0 0) (Z.of_nat (length s)))) with 0%nat by lia.
  rewrite Nat.min_0_l, Nat.max_0_l, Nat.sub_0_r, drop_0.
  destruct (decide (Z.to_nat k <= length s)%nat).
  - f_equal. lia.
  - rewrite !take_ge by lia. done.
Qed.

Lemma getFirstLine_chars text :
  let chars := list_ascii_of_string text in
  list_ascii_of_string (getFirstLine text)
  = if (indexOf newline chars =? -1)%Z then chars
    else take (Z.to_nat (indexOf newline chars)) chars.
Proof.
  intros chars. unfold getFirstLine. fold chars.
  destruct (indexOf newline chars =? -1)%Z; [done|].
  by rewrite list_ascii_of_string_of_list_ascii, js_substring_prefix.
Qed.

Lemma getFirstLine_no_newline text :
  newline ∉ list_ascii_of_string (getFirstLine text).
Proof.
  rewrite getFirstLine_chars.
  pose proof (indexOf_range newline (list_ascii_of_string text)) as Hr.
  destruct (indexOf newline (list_ascii_of_string text) =? -1)%Z eqn:E.
  - apply indexOf_absent. lia.
  - destruct (indexOf_found newline (list_ascii_of_string text)) as (_ & _ & H); [lia|done].
Qed.

Lemma getFirstLine_prefix text :
  ∃ rest, list_ascii_of_string text = list_ascii_of_string (getFirstLine text) ++ rest.
Proof.
  rewrite getFirstLine_chars.
  destruct (indexOf newline (list_ascii_of_string text) =? -1)%Z.
  - exists []. by rewrite app_nil_r.
  - eexists. symmetry. apply take_drop.
Qed.

(** X1. The first line of a text holds no newline.  A text without
    newline is its own first line; otherwise the text is its first line,
    a newline, and the rest. *)
Theorem getFirstLine_splits text :
  let first := list_ascii_of_string (getFirstLine text) in
  (newline ∉ first)
  ∧ (isMultiLine text = false -> getFirstLine text = text)
  ∧ (isMultiLine text = true ->
     ∃ rest, list_ascii_of_string text = first ++ newline :: rest).
Proof.
  intros first. split; [apply getFirstLine_no_newline|].
  pose proof (indexOf_range newline (list_ascii_of_string text)) as Hr.
  split.
  - intros Hsingle. unfold getFirstLine.
    assert (indexOf newline (list_ascii_of_string text) = -1) as ->; [|done].
    apply indexOf_absent. intros Hin. apply includes_spec in Hin.
    unfold isMultiLine in Hsingle. congruence.
  - intros Hmulti. unfold isMultiLine in Hmulti. apply includes_spec in Hmulti.
    unfold first. rewrite getFirstLine_chars.
    destruct (indexOf newline (list_ascii_of_string text) =? -1)%Z eqn:E.
    + exfalso. revert Hmulti. apply indexOf_absent. lia.
    + destruct (indexOf_found newline (list_ascii_of_string text)) as (rest & Hs & _);
        [lia|]. by exists rest.
Qed.

Lemma string_length_chars s : String.length s = length (list_ascii_of_string s).
Proof.
  rewrite <- (string_of_list_ascii_of_string s) at 1. apply string_of_length.
Qed.

Lemma truncateText_chars text maxLength :
  let first := list_ascii_of_string (getFirstLine text) in
  list_ascii_of_string (truncateText text maxLength)
  = if (Z.of_nat (length first) <=? maxLength)%Z then first
    else take (Z.to_nat (maxLength - 3)) first ++ list_ascii_of_string "...".
Proof.
  intros first. unfold truncateText. rewrite string_length_chars. fold first.
  destruct (Z.of_nat (length first) <=? maxLength)%Z; [done|].
  by rewrite chars_of_append, list_ascii_of_string_of_list_ascii, js_substring_prefix.
Qed.

(** X2. With a maximal length of at least 3, the truncated text is never
    longer than the maximal length, and it never holds a newline. *)
Theorem truncateText_bound text maxLength :
  3 <= maxLength ->
  Z.of_nat (String.length (truncateText text maxLength)) <= maxLength
  ∧ newline ∉ list_ascii_of_string (truncateText text maxLength).
Proof.
  intros Hmax. rewrite string_length_chars, truncateText_chars.
  pose proof (getFirstLine_no_newline text) as Hfree.
  destruct (Z.of_nat (length (list_ascii_of_string (getFirstLine text))) <=? maxLength)%Z
    eqn:E.
  - split; [lia | done].
  - split.
    + rewrite length_app, length_take. simpl. lia.
    + rewrite elem_of_app. intros [Hin|Hin].
      * apply Hfree. by apply (subseteq_take (Z.to_nat (maxLength - 3))).
      * simpl in Hin. repeat (apply elem_of_cons in Hin as [Hin|Hin]; [discriminate|]).
        by apply elem_of_nil in Hin.
Qed.

Lemma truncateText_bound_witness :
  Z.of_nat (String.length (truncateText "a rather long first line
and a second one" 10)) <= 10.
Proof. apply truncateText_bound. lia. Defined.

(** X3. A first line that fits is returned whole.  One that does not fit
    is replaced by the first [maxLength - 3] characters of the text
    followed by three dots; below a maximal length of 3 that is the three
    dots alone, which is longer than asked for. *)
Theorem truncateText_shape text maxLength :
  let first := getFirstLine text in
  (Z.of_nat (String.length first) <= maxLength -> truncateText text maxLength = first)
  ∧ (maxLength < Z.of_nat (String.length first) ->
     truncateText text maxLength
     = string_of_list_ascii (take (Z.to_nat (maxLength - 3)) (list_ascii_of_string text))
       +:+ "..."
     ∧ (maxLength < 3 -> truncateText text maxLength = "...")).
Proof.
  intros first. unfold truncateText. fold first. split.
  - intros Hfit. by rewrite (proj2 (Z.leb_le _ _) Hfit).
  - intros Hlong. rewrite (proj2 (Z.leb_gt _ _) Hlong).
    rewrite js_substring_prefix.
    destruct (getFirstLine_prefix text) as [rest Hrest]. fold first in Hrest.
    rewrite string_length_chars in Hlong.
    assert (take (Z.to_nat (maxLength - 3)) (list_ascii_of_string text)
            = take (Z.to_nat (maxLength - 3)) (list_ascii_of_string first)) as ->.
    { rewrite Hrest. apply take_app_le. lia. }
    split; [done|]. intros Hsmall.
    by replace (Z.to_nat (maxLength - 3)) with 0%nat by lia.
Qed.

Lemma truncateText_shape_witness :
  truncateText "0123456789" 2 = "...".
Proof.
  destruct (truncateText_shape "0123456789" 2) as [_ H].
  destruct H as [_ H]; [simpl; lia|]. apply H. lia.
Defined.

(** ** Saving and loading *)

Lemma values_app s l1 l2 : values s (l1 ++ l2) = values s l1 ++ values s l2.
Proof. unfold values. apply omap_app. Qed.

Lemma values_same_heap s s' l : heap s' = heap s -> values s' l = values s l.
Proof. unfold values. by intros ->. Qed.

Lemma values_valid s a o : heap s !! a = Some o -> values s [a] = [o].
Proof. unfold values. simpl. by intros ->. Qed.

Lemma saveAnnotations_unconfigured env p s :
  truthy (getRepoPath s) = None ->
  saveAnnotations env p s
  = (s, Thrown (mkError "Annotation repository not configured" None)).
Proof. unfold saveAnnotations. unfold_M. simpl. by intros ->. Qed.

Lemma saveAnnotations_mkdir_fault env p s r e :
  truthy (getRepoPath s) = Some r -> mkdir_fault env = Some e ->
  saveAnnotations env p s = (s, Thrown e).
Proof. unfold saveAnnotations. unfold_M. simpl. by intros -> ->. Qed.

Lemma saveAnnotations_write_fault env p s r failure :
  truthy (getRepoPath s) = Some r -> mkdir_fault env = None ->
  writeFile_fault env = Some failure ->
  saveAnnotations env p s
  = (match write_residue failure with
     | Some raw => set_disk (<[getAnnotationFilePath p r := Text raw]>) s
     | None => s
     end, Thrown (write_error failure)).
Proof.
  unfold saveAnnotations. unfold_M. simpl. intros -> -> ->. simpl.
  by destruct (write_residue failure).
Qed.

Lemma saveAnnotations_mirrors env p s s1 :
  saveAnnotations env p s = (s1, Returned tt) ->
  mirrored s1 p ∧ heap s1 = heap s ∧ annotations s1 = annotations s ∧
  repo s1 = repo s ∧ warnings s1 = warnings s ∧
  ∃ r, truthy (getRepoPath s) = Some r ∧
       ∀ file, file ≠ getAnnotationFilePath p r -> disk s1 !! file = disk s !! file.
Proof.
  intros Hsave. apply saveAnnotations_returned in Hsave as (r & Hr & ->).
  split_and!; try done.
  - exists r. split; [done|]. simpl. by rewrite lookup_insert_eq.
  - exists r. split; [done|]. intros file Hne. simpl. by rewrite lookup_insert_ne.
Qed.

(** The step of [addAnnotation] before the save. *)
Lemma addAnnotation_steps env s a o :
  heap s !! a = Some o ->
  addAnnotation env a s
  = saveAnnotations env (Annotation.projectPath o)
      (set_annotations
         (<[Annotation.projectPath o :=
              getAllAnnotations s (Annotation.projectPath o) ++ [a]]>) s).
Proof.
  intros Ho. unfold addAnnotation, read_projectPath. unfold_M. simpl. by rewrite Ho.
Qed.

Lemma removeAnnotation_steps env s id p :
  removeAnnotation env id p s
  = saveAnnotations env p
      (set_annotations
         (<[p := List.filter (fun a => negb (field_is s Annotation.id id a))
                   (getAllAnnotations s p)]>) s).
Proof. unfold removeAnnotation. unfold_M. done. Qed.

Lemma updateAnnotation_steps env s id p newText a :
  getAnnotationById s id p = Some a ->
  updateAnnotation env id p newText s
  = saveAnnotations env p
      (set_heap (alter (set_timestamp (now env)) a)
         (set_heap (alter (set_text newText) a) s)).
Proof. intros Hfound. unfold updateAnnotation. unfold_M. by rewrite Hfound. Qed.

(** X4. [addAnnotation] appends to the collection in memory before it
    saves, and nothing takes the annotation back when the save throws.
    On a store without repository path the call throws "Annotation
    repository not configured", writes nothing, and still leaves the
    annotation in memory; the same holds when the directory cannot be
    made.  When writing the file fails the annotation stays in memory as
    well; no other file changes, and the document is as it was if the
    write failed before opening it, and holds what the write left of it
    otherwise. *)
Theorem addAnnotation_no_rollback env s a o :
  heap s !! a = Some o ->
  let p := Annotation.projectPath o in
  let s' := (addAnnotation env a s).1 in
  getAllAnnotations s' p = getAllAnnotations s p ++ [a]
  ∧ heap s' = heap s
  ∧ (truthy (getRepoPath s) = None ->
     (addAnnotation env a s).2
     = Thrown (mkError "Annotation repository not configured" None)
     ∧ disk s' = disk s)
  ∧ (∀ r e, truthy (getRepoPath s) = Some r -> mkdir_fault env = Some e ->
       (addAnnotation env a s).2 = Thrown e ∧ disk s' = disk s)
  ∧ (∀ r failure, truthy (getRepoPath s) = Some r -> mkdir_fault env = None ->
       writeFile_fault env = Some failure ->
       let file := getAnnotationFilePath p r in
       (addAnnotation env a s).2 = Thrown (write_error failure)
       ∧ (∀ other, other ≠ file -> disk s' !! other = disk s !! other)
       ∧ disk s' !! file = match write_residue failure with
                           | Some raw => Some (Text raw)
                           | None => disk s !! file
                           end).
Proof.
  intros Ho p s'.
  destruct (addAnnotation_memory env s a o Ho) as [Hh Ha]. fold s' in Hh, Ha.
  split_and!.
  - unfold getAllAnnotations at 1. by rewrite Ha, lookup_insert_eq.
  - done.
  - intros Hnone. unfold s'. rewrite addAnnotation_steps with (o := o) by done.
    by rewrite saveAnnotations_unconfigured.
  - intros r e Hr Hmk. unfold s'. rewrite addAnnotation_steps with (o := o) by done.
    by rewrite (saveAnnotations_mkdir_fault _ _ _ r e).
  - intros r failure Hr Hmk Hw file. unfold s'.
    rewrite addAnnotation_steps with (o := o) by done.
    rewrite (saveAnnotations_write_fault _ _ _ r failure) by done. fold p file.
    destruct (write_residue failure) as [raw|]; simpl; split_and!; try done.
    + intros other Hne. by rewrite lookup_insert_ne.
    + by rewrite lookup_insert_eq.
Qed.

Lemma addAnnotation_no_rollback_witness :
  getAllAnnotations
    (addAnnotation (calm 1) 0%nat (mkState [note1] ∅ false None ∅ empty_repository [])).1
    "/tmp/proj" = [0%nat].
Proof.
  destruct (addAnnotation_no_rollback (calm 1)
              (mkState [note1] ∅ false None ∅ empty_repository []) 0%nat note1)
    as [H _]; [reflexivity | exact H].
Defined.

(** X5. A mutation that returns normally has written the project's
    document: after [addAnnotation], [removeAnnotation], or an
    [updateAnnotation] that found its annotation, the document on disk
    holds exactly the values of the collection in memory, in order, under
    version "1.0". *)
Theorem mutation_persists env s s' :
  (∀ a o, heap s !! a = Some o ->
     addAnnotation env a s = (s', Returned tt) ->
     mirrored s' (Annotation.projectPath o))
  ∧ (∀ id p, removeAnnotation env id p s = (s', Returned tt) -> mirrored s' p)
  ∧ (∀ id p newText, is_Some (getAnnotationById s id p) ->
       updateAnnotation env id p newText s = (s', Returned tt) -> mirrored s' p).
Proof.
  split_and!.
  - intros a o Ho Hrun. rewrite addAnnotation_steps with (o := o) in Hrun by done.
    by apply saveAnnotations_mirrors in Hrun as [H _].
  - intros id p Hrun. rewrite removeAnnotation_steps in Hrun.
    by apply saveAnnotations_mirrors in Hrun as [H _].
  - intros id p newText [a Hfound] Hrun.
    rewrite updateAnnotation_steps with (a := a) in Hrun by done.
    by apply saveAnnotations_mirrors in Hrun as [H _].
Qed.

Lemma mutation_persists_witness :
  mirrored (removeAnnotation (calm 1) "id1" "/tmp/proj" sample_store).1 "/tmp/proj".
Proof.
  destruct (mutation_persists (calm 1) sample_store
              (removeAnnotation (calm 1) "id1" "/tmp/proj" sample_store).1)
    as (_ & H & _).
  apply (H "id1" "/tmp/proj"). by vm_compute.
Defined.

Lemma values_fresh (h l : list Annotation.t) s :
  heap s = h ++ l -> values s (seq (length h) (length l)) = l.
Proof.
  intros Hheap. unfold values. rewrite Hheap. clear Hheap.
  revert h. induction l as [|o l IH]; intros h; simpl; [done|].
  rewrite lookup_app_r by lia. rewrite Nat.sub_diag. simpl. f_equal.
  replace (h ++ o :: l) with ((h ++ [o]) ++ l) by (by rewrite <- app_assoc).
  specialize (IH (h ++ [o])). rewrite length_app in IH. simpl in IH.
  by replace (length h + 1)%nat with (S (length h)) in IH by lia.
Qed.

(** What [loadAnnotations] does with a document it can read. *)
Lemma loadAnnotations_document env p s r data :
  truthy (getRepoPath s) = Some r ->
  disk s !! getAnnotationFilePath p r = Some (Document data) ->
  readFile_fault env = None ->
  loadAnnotations env p s
  = (set_annotations
       (<[p := seq (length (heap s)) (length (AnnotationData.annotations data))]>)
       (set_heap (fun h => h ++ AnnotationData.annotations data) s),
     Returned tt).
Proof.
  intros Hr Hdoc Hread. unfold loadAnnotations. unfold_M. simpl.
  rewrite Hr. simpl. rewrite Hread. simpl. by rewrite Hdoc.
Qed.

(** X6. When the project's document can be read, [loadAnnotations]
    replaces the collection in memory, saved or not, by new objects
    holding the document's annotations in the document's order; the
    objects there were stay as they are, and no warning is shown.  The
    document is taken as it is: neither ids nor project paths are
    checked. *)
Theorem loadAnnotations_installs env p s r data :
  truthy (getRepoPath s) = Some r ->
  disk s !! getAnnotationFilePath p r = Some (Document data) ->
  readFile_fault env = None ->
  let s' := (loadAnnotations env p s).1 in
  (loadAnnotations env p s).2 = Returned tt
  ∧ values s' (getAllAnnotations s' p) = AnnotationData.annotations data
  ∧ getAllAnnotations s' p
    = seq (length (heap s)) (length (AnnotationData.annotations data))
  ∧ heap s' = heap s ++ AnnotationData.annotations data
  ∧ warnings s' = warnings s.
Proof.
  intros Hr Hdoc Hread s'. unfold s'.
  rewrite (loadAnnotations_document env p s r data) by done. simpl.
  assert (getAllAnnotations
            (set_annotations
               (<[p := seq (length (heap s)) (length (AnnotationData.annotations data))]>)
               (set_heap (fun h => h ++ AnnotationData.annotations data) s)) p
          = seq (length (heap s)) (length (AnnotationData.annotations data))) as Hcoll.
  { unfold getAllAnnotations. simpl. by rewrite lookup_insert_eq. }
  split_and!; try done.
  rewrite Hcoll. by apply values_fresh.
Qed.

Lemma loadAnnotations_installs_witness :
  values (loadAnnotations (calm 1) "/p" stray_on_disk).1
    (getAllAnnotations (loadAnnotations (calm 1) "/p" stray_on_disk).1 "/p")
  = AnnotationData.annotations (AnnotationData.mk [stray] "1.0").
Proof.
  destruct (loadAnnotations_installs (calm 1) "/p" stray_on_disk "/repo"
              (AnnotationData.mk [stray] "1.0")) as (_ & H & _).
  - reflexivity.
  - by vm_compute.
  - reflexivity.
  - exact H.
Defined.

(** X7. Save, then load: when [saveAnnotations] returns and the file can
    be read back, [loadAnnotations] yields a collection with the same
    values in the same order, held by objects that are all new. *)
Theorem save_then_load env1 env2 p s s1 :
  saveAnnotations env1 p s = (s1, Returned tt) ->
  readFile_fault env2 = None ->
  let s2 := (loadAnnotations env2 p s1).1 in
  (loadAnnotations env2 p s1).2 = Returned tt
  ∧ values s2 (getAllAnnotations s2 p) = values s (getAllAnnotations s p)
  ∧ Forall (fun a => (length (heap s) <= a)%nat) (getAllAnnotations s2 p)
  ∧ warnings s2 = warnings s.
Proof.
  intros Hsave Hread s2.
  apply saveAnnotations_returned in Hsave as (r & Hr & ->).
  set (data := AnnotationData.mk (values s (getAllAnnotations s p)) "1.0").
  unfold s2. fold data.
  rewrite (loadAnnotations_document env2 p _ r data);
    [|done|simpl; by rewrite lookup_insert_eq|done].
  cbn [fst snd].
  match goal with |- context [getAllAnnotations ?st p] =>
    match st with
    | set_annotations _ _ =>
        assert (getAllAnnotations st p
                = seq (length (heap s)) (length (values s (getAllAnnotations s p))))
          as Hcoll by (unfold getAllAnnotations; simpl; by rewrite lookup_insert_eq);
        rewrite !Hcoll
    end
  end.
  split_and!; try done.
  - by apply values_fresh.
  - apply Forall_forall. intros a Ha.
    apply list_elem_of_In, in_seq in Ha. lia.
Qed.

Lemma save_then_load_witness :
  values (loadAnnotations (calm 2) "/tmp/proj"
            (saveAnnotations (calm 1) "/tmp/proj" sample_store).1).1
    (getAllAnnotations
       (loadAnnotations (calm 2) "/tmp/proj"
          (saveAnnotations (calm 1) "/tmp/proj" sample_store).1).1 "/tmp/proj")
  = values sample_store (getAllAnnotations sample_store "/tmp/proj").
Proof.
  destruct (save_then_load (calm 1) (calm 2) "/tmp/proj" sample_store
              (saveAnnotations (calm 1) "/tmp/proj" sample_store).1) as (_ & H & _).
  - by vm_compute.
  - reflexivity.
  - exact H.
Defined.

(** ** Removing, looking up, unique ids *)

Lemma getAll_insert s p l f :
  getAllAnnotations (set_annotations (fun m => <[p := l]> (f m)) s) p = l.
Proof. unfold getAllAnnotations. simpl. by rewrite lookup_insert_eq. Qed.

Lemma getAll_after m s' s p l q :
  annotations s' = <[p := l]> m -> m = annotations s ->
  getAllAnnotations s' q = if decide (p = q) then l else getAllAnnotations s q.
Proof.
  intros Ha ->. unfold getAllAnnotations. rewrite Ha.
  case_decide as E.
  - subst. by rewrite lookup_insert_eq.
  - by rewrite lookup_insert_ne.
Qed.

Lemma elem_of_values s l o :
  o ∈ values s l <-> ∃ a, a ∈ l ∧ heap s !! a = Some o.
Proof. unfold values. apply list_elem_of_omap. Qed.

(** X8. [removeAnnotation] drops from the collection every annotation
    that carries the id, not just the first, and keeps the others in
    their order; no object is touched.  When no annotation carries the
    id the collection is the same list as before, and the project's
    entry exists afterwards in either case. *)
Theorem removeAnnotation_removes_all env s id p :
  let s' := (removeAnnotation env id p s).1 in
  subsequence_where (fun a => ¬ has_field s Annotation.id id a)
    (getAllAnnotations s p) (getAllAnnotations s' p)
  ∧ Forall (fun a => ¬ has_field s' Annotation.id id a) (getAllAnnotations s' p)
  ∧ heap s' = heap s
  ∧ annotations s' !! p = Some (getAllAnnotations s' p)
  ∧ (Forall (fun a => ¬ has_field s Annotation.id id a) (getAllAnnotations s p) ->
     getAllAnnotations s' p = getAllAnnotations s p).
Proof.
  intros s'. destruct (removeAnnotation_memory env s id p) as [Hh Ha].
  fold s' in Hh, Ha.
  assert (getAllAnnotations s' p
          = List.filter (fun a => negb (field_is s Annotation.id id a))
              (getAllAnnotations s p)) as Hcoll.
  { unfold getAllAnnotations at 1. by rewrite Ha, lookup_insert_eq. }
  assert (∀ a, negb (field_is s Annotation.id id a) = true
               <-> ¬ has_field s Annotation.id id a) as Hneg.
  { intros a. rewrite negb_true_iff. apply field_is_false. }
  split_and!.
  - rewrite Hcoll. by apply filter_subsequence_where.
  - rewrite Hcoll. apply Forall_forall. intros a Hin.
    apply list_elem_of_In, filter_In in Hin as [_ Hin]. apply Hneg in Hin.
    intros (o & Ho & Hid). apply Hin. exists o. by rewrite <- Hh.
  - done.
  - rewrite Ha, lookup_insert_eq. by rewrite Hcoll.
  - intros Habsent. rewrite Hcoll. apply filter_all.
    eapply Forall_impl; [exact Habsent|]. intros a Hna. by apply Hneg.
Qed.

(** X9. Lookups after an add.  The new annotation comes last among the
    annotations of its file and changes no other file's list.  Lookup by
    id still returns the annotation that carried the id before, if there
    was one, so a second annotation with the same id cannot be reached by
    id; otherwise it returns the new one. *)
Theorem lookup_after_add env s a o :
  heap s !! a = Some o ->
  let p := Annotation.projectPath o in
  let s' := (addAnnotation env a s).1 in
  (∀ file, getAnnotationsForFile s' file p
           = getAnnotationsForFile s file p
             ++ (if String.eqb (Annotation.filePath o) file then [a] else []))
  ∧ (∀ id, getAnnotationById s' id p
           = match getAnnotationById s id p with
             | Some b => Some b
             | None => if String.eqb (Annotation.id o) id then Some a else None
             end).
Proof.
  intros Ho p s'. destruct (addAnnotation_memory env s a o Ho) as [Hh Ha].
  fold s' in Hh, Ha.
  assert (getAllAnnotations s' p = getAllAnnotations s p ++ [a]) as Hcoll.
  { unfold getAllAnnotations at 1. by rewrite Ha, lookup_insert_eq. }
  assert (∀ field v b, field_is s' field v b = field_is s field v b) as Hsame.
  { intros field v b. unfold field_is. by rewrite Hh. }
  split.
  - intros file. unfold getAnnotationsForFile. rewrite Hcoll, List.filter_app.
    f_equal.
    + apply filter_ext. intros b. apply Hsame.
    + simpl. rewrite Hsame. unfold field_is. by rewrite Ho.
  - intros id. unfold getAnnotationById. rewrite Hcoll.
    rewrite (find_pointwise _ (field_is s Annotation.id id)) by (intros; apply Hsame).
    clear Hcoll. induction (getAllAnnotations s p) as [|b l IH]; simpl.
    + unfold field_is. by rewrite Ho.
    + destruct (field_is s Annotation.id id b); [done | apply IH].
Qed.

Lemma lookup_after_add_witness :
  getAnnotationById (addAnnotation (calm 1) 2%nat sample_store).1 "id3"
    (Annotation.projectPath note3) = Some 2%nat.
Proof.
  destruct (lookup_after_add (calm 1) sample_store 2%nat note3) as [_ H];
    [reflexivity|].
  rewrite H. by vm_compute.
Defined.

Lemma ids_after_alter (f : Annotation.t -> Annotation.t) (b : nat)
    (h : list Annotation.t) (l : list nat) :
  (∀ o, Annotation.id (f o) = Annotation.id o) ->
  map Annotation.id (omap (fun a => alter f b h !! a) l)
  = map Annotation.id (omap (fun a => h !! a) l).
Proof.
  intros Hid. induction l as [|a l IH]; simpl; [done|].
  rewrite list_lookup_alter. case_decide as E.
  - subst a. destruct (h !! b) as [o|]; simpl; [|exact IH].
    rewrite Hid. f_equal. exact IH.
  - destruct (h !! a); simpl; [f_equal|]; exact IH.
Qed.

Lemma values_filter s id l :
  values s (List.filter (fun a => negb (field_is s Annotation.id id a)) l)
  = List.filter (fun o => negb (String.eqb (Annotation.id o) id)) (values s l).
Proof.
  unfold values, field_is. induction l as [|a l IH]; simpl; [done|].
  destruct (heap s !! a) as [o|] eqn:Ho; simpl.
  - destruct (String.eqb (Annotation.id o) id); simpl; [exact IH|].
    rewrite Ho. f_equal. exact IH.
  - rewrite Ho. exact IH.
Qed.

Lemma NoDup_map_filter {A B} (f : A -> B) (g : A -> bool) l :
  NoDup (map f l) -> NoDup (map f (List.filter g l)).
Proof.
  induction l as [|x l IH]; simpl; [done|]. intros Hnd.
  apply NoDup_cons in Hnd as [Hx Hnd].
  destruct (g x); simpl; [|by apply IH].
  apply NoDup_cons. split; [|by apply IH].
  intros Hin. apply Hx. apply list_elem_of_fmap in Hin as (y & -> & Hy).
  apply list_elem_of_fmap. exists y. split; [done|].
  by apply list_elem_of_In, filter_In in Hy as [Hy%list_elem_of_In _].
Qed.

(** X10. The store keeps ids unique as long as its callers do: if no two
    annotations of a project carry the same id, that remains so after any
    update, after any removal, and after adding an object whose id no
    annotation of its project carries.  [addAnnotation] itself checks
    nothing: adding an object whose id is already carried breaks
    uniqueness. *)
Theorem unique_ids_kept env s q :
  unique_ids s q ->
  (∀ id p newText, unique_ids (updateAnnotation env id p newText s).1 q)
  ∧ (∀ id p, unique_ids (removeAnnotation env id p s).1 q)
  ∧ (∀ a o, heap s !! a = Some o ->
       Forall (fun b => ¬ has_field s Annotation.id (Annotation.id o) b)
              (getAllAnnotations s (Annotation.projectPath o)) ->
       unique_ids (addAnnotation env a s).1 q)
  ∧ (∀ a o b, heap s !! a = Some o -> Annotation.projectPath o = q ->
       b ∈ getAllAnnotations s q -> has_field s Annotation.id (Annotation.id o) b ->
       ¬ unique_ids (addAnnotation env a s).1 q).
Proof.
  intros Huniq. unfold unique_ids in *. split_and!.
  - intros id p newText.
    destruct (getAnnotationById s id p) as [b|] eqn:Hfound.
    + destruct (updateAnnotation_memory env s id p newText b Hfound) as [Hh Ha].
      unfold getAllAnnotations, values. rewrite Hh, Ha.
      rewrite !ids_after_alter by done. exact Huniq.
    + unfold updateAnnotation. unfold_M. by rewrite Hfound.
  - intros id p. destruct (removeAnnotation_memory env s id p) as [Hh Ha].
    rewrite (values_same_heap s) by done.
    rewrite (getAll_after _ _ s _ _ q Ha eq_refl).
    case_decide as E; [|done]. subst q.
    rewrite values_filter. by apply NoDup_map_filter.
  - intros a o Ho Hfresh. destruct (addAnnotation_memory env s a o Ho) as [Hh Ha].
    rewrite (values_same_heap s) by done.
    rewrite (getAll_after _ _ s _ _ q Ha eq_refl).
    case_decide as E; [|done]. subst q.
    rewrite values_app, (values_valid s a o) by done.
    rewrite map_app. simpl. apply NoDup_app. split_and!; [done| |apply NoDup_singleton].
    intros i Hi Hi'. apply list_elem_of_singleton in Hi'. subst i.
    apply list_elem_of_fmap in Hi as (o' & Hid & Ho').
    apply elem_of_values in Ho' as (b & Hb & Hbo).
    rewrite Forall_forall in Hfresh. apply (Hfresh b Hb). by exists o'.
  - intros a o b Ho Hq Hb (o' & Ho' & Hid) Hnd.
    destruct (addAnnotation_memory env s a o Ho) as [Hh Ha].
    rewrite (values_same_heap s) in Hnd by done.
    rewrite (getAll_after _ _ s _ _ q Ha eq_refl) in Hnd.
    rewrite decide_True in Hnd by done.
    rewrite values_app, (values_valid s a o), map_app in Hnd by done.
    apply NoDup_app in Hnd as (_ & Hdisj & _).
    apply (Hdisj (Annotation.id o)); [|simpl; left].
    apply list_elem_of_fmap. exists o'. split; [done|].
    apply elem_of_values. exists b. by rewrite Hq.
Qed.

Lemma unique_ids_kept_witness :
  unique_ids (removeAnnotation (calm 1) "id1" "/tmp/proj" sample_store).1 "/tmp/proj".
Proof.
  destruct (unique_ids_kept (calm 1) sample_store "/tmp/proj") as (_ & H & _).
  - unfold unique_ids. apply (bool_decide_unpack _). by vm_compute.
  - apply (H "id1" "/tmp/proj").
Defined.

(** ** Mutations followed by a commit *)

Opaque status_of.


Transparent status_of.

Lemma settled_nothing_deleted s p : settled s p -> nothing_deleted s.
Proof. intros (_ & HH & _) path. by rewrite HH. Qed.

Lemma saveAnnotations_keeps_files env p s s1 :
  saveAnnotations env p s = (s1, Returned tt) ->
  nothing_deleted s -> nothing_deleted s1.
Proof.
  intros (r & _ & ->)%saveAnnotations_returned. apply nothing_deleted_insert.
Qed.

Lemma commitChanges_returned env p msg s s2 :
  commitChanges env p msg s = (s2, Returned tt) ->
  ∃ s1, saveAnnotations env p s = (s1, Returned tt) ∧
        commitAndPush env msg s1 = (s2, Returned tt).
Proof.
  unfold commitChanges. unfold_M.
  destruct (saveAnnotations env p s) as [s1 [[]|e]]; [|discriminate].
  intros H. by exists s1.
Qed.

(** A [commitChanges] that returns has saved and staged. *)
Lemma commitChanges_mirrors env p msg s s2 :
  commitChanges env p msg s = (s2, Returned tt) ->
  mirrored s2 p ∧ staging (repo s2) = disk s2 ∧
  heap s2 = heap s ∧ annotations s2 = annotations s.
Proof.
  intros (s1 & Hsave & Hcommit)%commitChanges_returned.
  apply saveAnnotations_mirrors in Hsave as ((r & Hr & Hdoc) & Hh1 & Ha1 & _).
  apply commitAndPush_returned in Hcommit as (Hh & Ha & Hrp & Hd & HI & _).
  unfold mirrored. split_and!; [|congruence..].
  exists r. unfold getRepoPath in *. rewrite Hrp. split; [done|].
  rewrite Hd, Hdoc. do 3 f_equal. symmetry. by apply stored_values_same.
Qed.

Lemma commitChanges_settled_after env p msg s s2 :
  nothing_deleted s ->
  commitChanges env p msg s = (s2, Returned tt) ->
  settled s2 p ∧ heap s2 = heap s ∧ annotations s2 = annotations s.
Proof.
  intros Hkept Hrun.
  destruct (commitChanges_mirrors _ _ _ _ _ Hrun) as (Hm & HI & Hh & Ha).
  apply commitChanges_returned in Hrun as (s1 & Hsave & Hcommit).
  pose proof (saveAnnotations_keeps_files _ _ _ _ Hsave Hkept) as Hkept1.
  pose proof (commitAndPush_committed _ _ _ _ Hkept1 Hcommit) as HH.
  apply commitAndPush_returned in Hcommit as (_ & _ & _ & Hd & _).
  unfold settled. split_and!; try done. congruence.
Qed.

(** On a settled store a commit creates nothing, whatever fails. *)
Lemma commitChanges_quiet env p msg s :
  settled s p ->
  commits (repo (commitChanges env p msg s).1) = commits (repo s).
Proof.
  intros ((r & Hr & Hdoc) & HH & HI).
  unfold commitChanges. unfold_M.
  pose proof (saveAnnotations_memory env p s) as (_ & _ & _ & _ & Hrepo & _).
  destruct (saveAnnotations env p s) as [s1 [[]|e]] eqn:Hsave; simpl in *.
  - apply saveAnnotations_returned in Hsave as (r' & Hr' & ->).
    assert (r' = r) as -> by congruence.
    rewrite commitAndPush_clean; simpl; [done|]. by rewrite insert_id.
  - by rewrite Hrepo.
Qed.


(** When the document of the last commit is not the one memory asks for,
    and either it was there or no file of the last commit has gone, a
    [commitChanges] that returns has created the commit. *)
Lemma commitChanges_commits env p msg s s2 r :
  truthy (getRepoPath s) = Some r ->
  committed (repo s) !! getAnnotationFilePath p r
  ≠ Some (Document (AnnotationData.mk (values s (getAllAnnotations s p)) "1.0")) ->
  is_Some (committed (repo s) !! getAnnotationFilePath p r) ∨ nothing_deleted s ->
  commitChanges env p msg s = (s2, Returned tt) ->
  commits (repo s2) = commits (repo s) ++ [msg].
Proof.
  intros Hr Hold Hcase (s1 & Hsave & Hcommit)%commitChanges_returned.
  apply saveAnnotations_returned in Hsave as (r' & Hr' & ->).
  assert (r' = r) as -> by congruence.
  set (sa := set_disk _ s) in Hcommit.
  assert (getAnnotationFilePath p r
            ∈ modified (status_of (detect_renames env) (repo (staged_all sa)))
          ∨ getAnnotationFilePath p r
            ∈ created (status_of (detect_renames env) (repo (staged_all sa)))) as Hpath.
  { apply difference_is_listed.
    - simpl. by rewrite lookup_insert_eq.
    - simpl. rewrite lookup_insert_eq. by eexists.
    - destruct Hcase as [H|H]; [by left | right]. by apply nothing_deleted_insert. }
  by destruct (commitAndPush_records _ _ _ _ _ Hpath Hcommit) as [_ H].
Qed.


Lemma nothing_committed_yet s : committed (repo s) = ∅ -> nothing_deleted s.
Proof. intros HH path. rewrite HH, lookup_empty. by intros [x Hx]. Qed.


Lemma document_differs (l : list Annotation.t) o version :
  Some (Document (AnnotationData.mk l version))
  ≠ Some (Document (AnnotationData.mk (l ++ [o]) version)).
Proof.
  intros E. simplify_eq. apply (f_equal length) in E.
  rewrite length_app in E. simpl in E. lia.
Qed.

(** X12. Add, then commit, as the save handler of the extension does: on
    a settled store, when both calls return, exactly one commit has been
    created, with the given message, and the store is settled again. *)
Theorem add_then_commit env1 env2 s a o message s1 s2 :
  settled s (Annotation.projectPath o) ->
  heap s !! a = Some o ->
  addAnnotation env1 a s = (s1, Returned tt) ->
  commitChanges env2 (Annotation.projectPath o) message s1 = (s2, Returned tt) ->
  commits (repo s2) = commits (repo s) ++ [message]
  ∧ settled s2 (Annotation.projectPath o)
  ∧ getAllAnnotations s2 (Annotation.projectPath o)
    = getAllAnnotations s (Annotation.projectPath o) ++ [a].
Proof.
  intros Hs Ho Hadd Hcommit.
  pose proof (settled_nothing_deleted _ _ Hs) as Hkept.
  destruct Hs as ((r & Hr & Hdoc) & HH & HI).
  set (p := Annotation.projectPath o) in *.
  pose proof (addAnnotation_memory env1 s a o Ho) as [Hh1 Ha1].
  rewrite Hadd in Hh1, Ha1. simpl in Hh1, Ha1. fold p in Ha1.
  assert (getAllAnnotations s1 p = getAllAnnotations s p ++ [a]) as Hcoll.
  { unfold getAllAnnotations at 1. by rewrite Ha1, lookup_insert_eq. }
  rewrite addAnnotation_steps with (o := o) in Hadd by done.
  pose proof (saveAnnotations_memory env1 p
    (set_annotations (<[p := getAllAnnotations s p ++ [a]]>) s))
    as (_ & _ & _ & Hrp1 & Hrepo1 & _).
  fold p in Hadd. rewrite Hadd in Hrp1, Hrepo1. simpl in Hrp1, Hrepo1.
  pose proof (saveAnnotations_keeps_files _ _ _ _ Hadd Hkept) as Hkept1.
  destruct (commitChanges_settled_after _ _ _ _ _ Hkept1 Hcommit)
    as (Hsettled & Hh2 & Ha2).
  split_and!; [|done|].
  - rewrite (commitChanges_commits env2 p message s1 s2 r);
      [by rewrite Hrepo1 | | | by right | done].
    + unfold getRepoPath in *. by rewrite Hrp1.
    + rewrite Hrepo1, HH, Hdoc, Hcoll, values_app.
      rewrite (values_same_heap s s1) by done.
      rewrite (values_same_heap s s1 [a]), (values_valid s a o) by done.
      apply document_differs.
  - unfold getAllAnnotations at 1. rewrite Ha2. by fold (getAllAnnotations s1 p).
Qed.

Lemma add_then_commit_witness :
  commits (repo (commitChanges (calm 4) (Annotation.projectPath note3) "Add annotation by Alice to a.ts"
                   (addAnnotation (calm 3) 2%nat committed_store).1).1)
  = commits (repo committed_store) ++ ["Add annotation by Alice to a.ts"].
Proof.
  destruct (add_then_commit (calm 3) (calm 4) committed_store 2%nat note3
              "Add annotation by Alice to a.ts"
              (addAnnotation (calm 3) 2%nat committed_store).1
              (commitChanges (calm 4) (Annotation.projectPath note3)
                 "Add annotation by Alice to a.ts"
                 (addAnnotation (calm 3) 2%nat committed_store).1).1) as [H _].
  - apply (commitChanges_settled_after (calm 2) "/tmp/proj"
             "Add annotation by Alice to a.ts" sample_store);
      [by apply nothing_committed_yet | by vm_compute].
  - by vm_compute.
  - by vm_compute.
  - by vm_compute.
  - exact H.
Defined.

Lemma filter_shorter {A} (g : A -> bool) l x :
  x ∈ l -> g x = false -> (length (List.filter g l) < length l)%nat.
Proof.
  intros Hx Hg. induction l as [|y l IH]; [by apply elem_of_nil in Hx|].
  pose proof (List.filter_length_le g l) as Hle. simpl.
  apply elem_of_cons in Hx as [->|Hx].
  - rewrite Hg. lia.
  - specialize (IH Hx). destruct (g y); simpl; lia.
Qed.

(** X13. Remove, then commit, as the delete handler of the extension
    does: on a settled store, when both calls return, the history gets
    exactly one commit if some annotation carried the id, and none if no
    annotation did. *)
Theorem remove_then_commit env1 env2 s id p message s1 s2 :
  settled s p ->
  removeAnnotation env1 id p s = (s1, Returned tt) ->
  commitChanges env2 p message s1 = (s2, Returned tt) ->
  ((∃ a, a ∈ getAllAnnotations s p ∧ has_field s Annotation.id id a) ->
   commits (repo s2) = commits (repo s) ++ [message])
  ∧ (Forall (fun a => ¬ has_field s Annotation.id id a) (getAllAnnotations s p) ->
     commits (repo s2) = commits (repo s))
  ∧ settled s2 p.
Proof.
  intros Hs Hremove Hcommit.
  pose proof (settled_nothing_deleted _ _ Hs) as Hkept.
  destruct Hs as ((r & Hr & Hdoc) & HH & HI).
  pose proof (removeAnnotation_memory env1 s id p) as [Hh1 Ha1].
  rewrite Hremove in Hh1, Ha1. simpl in Hh1, Ha1.
  assert (getAllAnnotations s1 p
          = List.filter (fun a => negb (field_is s Annotation.id id a))
              (getAllAnnotations s p)) as Hcoll.
  { unfold getAllAnnotations at 1. by rewrite Ha1, lookup_insert_eq. }
  assert (values s1 (getAllAnnotations s1 p)
          = List.filter (fun o => negb (String.eqb (Annotation.id o) id))
              (values s (getAllAnnotations s p))) as Hvals.
  { rewrite Hcoll, (values_same_heap s s1) by done. apply values_filter. }
  rewrite removeAnnotation_steps in Hremove.
  pose proof (saveAnnotations_memory env1 p
    (set_annotations (<[p := List.filter (fun a => negb (field_is s Annotation.id id a))
                             (getAllAnnotations s p)]>) s))
    as (_ & _ & _ & Hrp1 & Hrepo1 & _).
  rewrite Hremove in Hrp1, Hrepo1. simpl in Hrp1, Hrepo1.
  pose proof (saveAnnotations_keeps_files _ _ _ _ Hremove Hkept) as Hkept1.
  apply saveAnnotations_returned in Hremove as (r' & Hr' & Hs1).
  assert (r' = r) as -> by (unfold getRepoPath in *; simpl in Hr'; congruence).
  destruct (commitChanges_settled_after _ _ _ _ _ Hkept1 Hcommit) as (Hsettled & _).
  split_and!; [| |done].
  - intros (a & Ha & o & Ho & Hid).
    rewrite (commitChanges_commits env2 p message s1 s2 r);
      [by rewrite Hrepo1 | | | by right | done].
    + unfold getRepoPath in *. by rewrite Hrp1.
    + rewrite Hrepo1, HH, Hdoc, Hvals. intros E. injection E as E.
      assert (o ∈ values s (getAllAnnotations s p)) as Hin.
      { apply elem_of_values. by exists a. }
      pose proof (filter_shorter (fun o => negb (String.eqb (Annotation.id o) id))
                    _ o Hin) as Hlen.
      rewrite <- E, Hid, String.eqb_refl in Hlen.
      specialize (Hlen eq_refl). lia.
  - intros Habsent.
    assert (settled s1 p) as Hs.
    { assert (List.filter (fun a => negb (field_is s Annotation.id id a))
                (getAllAnnotations s p) = getAllAnnotations s p) as Hid.
      { apply filter_all. eapply Forall_impl; [exact Habsent|].
        intros a Hna. simpl in Hna. apply field_is_false in Hna. by rewrite Hna. }
      assert (values s1 (getAllAnnotations s1 p) = values s (getAllAnnotations s p))
        as Hsame.
      { rewrite Hcoll, Hid. by apply values_same_heap. }
      assert (disk s1 = disk s) as Hdisk.
      { rewrite Hs1. simpl. apply insert_id. rewrite Hdoc. do 3 f_equal.
        rewrite <- Hsame, Hs1. unfold values, getAllAnnotations. done. }
      split_and!.
      - exists r. unfold getRepoPath in *. rewrite Hrp1. split; [done|].
        by rewrite Hdisk, Hdoc, Hsame.
      - by rewrite Hrepo1, Hdisk.
      - by rewrite Hrepo1, Hdisk. }
    pose proof (commitChanges_quiet env2 p message s1 Hs) as Hq.
    rewrite Hcommit in Hq. simpl in Hq. by rewrite Hq, Hrepo1.
Qed.

Lemma remove_then_commit_witness :
  commits (repo (commitChanges (calm 4) "/tmp/proj" "Remove annotation id9"
                   (removeAnnotation (calm 3) "id9" "/tmp/proj" committed_store).1).1)
  = commits (repo committed_store).
Proof.
  assert (Forall (fun a => ¬ has_field committed_store Annotation.id "id9" a)
            (getAllAnnotations committed_store "/tmp/proj")) as Habsent.
  { apply (Forall_impl (fun a => field_is committed_store Annotation.id "id9" a = false));
      [|intros a; apply field_is_false].
    apply (bool_decide_unpack _). by vm_compute. }
  destruct (remove_then_commit (calm 3) (calm 4) committed_store "id9" "/tmp/proj"
              "Remove annotation id9"
              (removeAnnotation (calm 3) "id9" "/tmp/proj" committed_store).1
              (commitChanges (calm 4) "/tmp/proj" "Remove annotation id9"
                 (removeAnnotation (calm 3) "id9" "/tmp/proj" committed_store).1).1)
    as (_ & H & _).
  - apply (commitChanges_settled_after (calm 2) "/tmp/proj"
             "Add annotation by Alice to a.ts" sample_store);
      [by apply nothing_committed_yet | by vm_compute].
  - by vm_compute.
  - by vm_compute.
  - exact (H Habsent).
Defined.

Lemma values_alter_same (g : Annotation.t -> Annotation.t) (a : ref)
    (h : list Annotation.t) (l : list ref) :
  (∀ o, h !! a = Some o -> g o = o) ->
  omap (fun x => alter g a h !! x) l = omap (fun x => h !! x) l.
Proof.
  unfold ref in *. intros Hsame.
  assert (∀ x, alter g a h !! x = h !! x) as Hpoint.
  { intros x. rewrite list_lookup_alter. case_decide as E; [|done]. subst x.
    destruct (h !! a) as [o|] eqn:Ho; [|done]. simpl. f_equal. by apply Hsame. }
  induction l as [|x l IH]; simpl; [done|].
  rewrite Hpoint. destruct (h !! x); [f_equal|]; exact IH.
Qed.

Lemma values_alter_differs (g : Annotation.t -> Annotation.t) (a : ref)
    (h : list Annotation.t) (l : list ref) o :
  a ∈ l -> h !! a = Some o -> g o ≠ o ->
  omap (fun x => alter g a h !! x) l ≠ omap (fun x => h !! x) l.
Proof.
  unfold ref in *. intros Hin Ho Hg.
  induction l as [|x l IH]; [by apply elem_of_nil in Hin|].
  simpl. rewrite list_lookup_alter. case_decide as E.
  - subst x. rewrite Ho. simpl. intros Heq. injection Heq as Heq _. done.
  - apply elem_of_cons in Hin as [->|Hin]; [done|].
    destruct (h !! x); simpl.
    + intros Heq. injection Heq as Heq. by apply IH.
    + by apply IH.
Qed.

Lemma find_elem_of {A} (f : A -> bool) l x : List.find f l = Some x -> x ∈ l.
Proof. intros H. apply find_some in H as [H _]. by apply list_elem_of_In. Qed.

(** X14. Update, then commit, as the edit handler of the extension does,
    on a settled store and with both calls returning.  When no annotation
    carries the id nothing is committed.  When one does, exactly one
    commit is created if the text or the timestamp of the annotation
    changed, and none if the annotation already had the new text and the
    clock reads its timestamp. *)
Theorem update_then_commit env1 env2 s id p newText message s1 s2 :
  settled s p ->
  updateAnnotation env1 id p newText s = (s1, Returned tt) ->
  commitChanges env2 p message s1 = (s2, Returned tt) ->
  (getAnnotationById s id p = None -> commits (repo s2) = commits (repo s))
  ∧ (∀ a o, getAnnotationById s id p = Some a -> heap s !! a = Some o ->
       (Annotation.text o ≠ newText ∨ Annotation.timestamp o ≠ now env1 ->
        commits (repo s2) = commits (repo s) ++ [message])
       ∧ (Annotation.text o = newText -> Annotation.timestamp o = now env1 ->
          commits (repo s2) = commits (repo s)))
  ∧ settled s2 p.
Proof.
  intros Hs Hupdate Hcommit.
  assert (nothing_deleted s1) as Hkept1.
  { pose proof (settled_nothing_deleted _ _ Hs) as Hkept.
    destruct (getAnnotationById s id p) as [a|] eqn:Hfound.
    - rewrite (updateAnnotation_steps env1 s id p newText a Hfound) in Hupdate.
      exact (saveAnnotations_keeps_files _ _ _ _ Hupdate Hkept).
    - revert Hupdate. unfold updateAnnotation. unfold_M. rewrite Hfound.
      intros E. by simplify_eq. }
  destruct (commitChanges_settled_after _ _ _ _ _ Hkept1 Hcommit) as (Hsettled & _).
  split_and!; [| |done].
  - intros Hnone. revert Hupdate. unfold updateAnnotation. unfold_M.
    rewrite Hnone. intros E. simplify_eq.
    pose proof (commitChanges_quiet env2 p message s1 Hs) as Hq.
    by rewrite Hcommit in Hq.
  - intros a o Hfound Ho.
    destruct Hs as ((r & Hr & Hdoc) & HH & HI).
    set (g := fun x => set_timestamp (now env1) (set_text newText x)).
    pose proof (updateAnnotation_memory env1 s id p newText a Hfound) as [Hh1 Ha1].
    rewrite Hupdate in Hh1, Ha1. simpl in Hh1, Ha1.
    rewrite list_alter_alter_eq in Hh1. change (_ ∘ _) with g in Hh1.
    assert (getAllAnnotations s1 p = getAllAnnotations s p) as Hcoll.
    { unfold getAllAnnotations. by rewrite Ha1. }
    rewrite (updateAnnotation_steps env1 s id p newText a Hfound) in Hupdate.
    pose proof (saveAnnotations_memory env1 p
      (set_heap (alter (set_timestamp (now env1)) a)
         (set_heap (alter (set_text newText) a) s)))
      as (_ & _ & _ & Hrp1 & Hrepo1 & _).
    rewrite Hupdate in Hrp1, Hrepo1. simpl in Hrp1, Hrepo1.
    apply saveAnnotations_returned in Hupdate as (r' & Hr' & Hs1).
    assert (r' = r) as -> by (unfold getRepoPath in *; simpl in Hr'; congruence).
    assert (a ∈ getAllAnnotations s p) as Hin by (by eapply find_elem_of).
    split.
    + intros Hchanged.
      rewrite (commitChanges_commits env2 p message s1 s2 r);
        [by rewrite Hrepo1 | | | by right | done].
      * unfold getRepoPath in *. by rewrite Hrp1.
      * rewrite Hrepo1, HH, Hdoc, Hcoll. unfold values. rewrite Hh1.
        intros E. injection E as E. symmetry in E. revert E.
        apply (values_alter_differs g a (heap s) _ o); [done..|].
        unfold g. destruct o. unfold set_timestamp, set_text. simpl in *.
        intros E. injection E as E1 E2. destruct Hchanged; congruence.
    + intros Htext Htime.
      assert (values s1 (getAllAnnotations s1 p) = values s (getAllAnnotations s p))
        as Hsame.
      { rewrite Hcoll. unfold values. rewrite Hh1. apply values_alter_same.
        intros o' Ho'. assert (o' = o) as -> by congruence.
        unfold g. destruct o. unfold set_timestamp, set_text. simpl in *. congruence. }
      assert (disk s1 = disk s) as Hdisk.
      { rewrite Hs1. simpl. apply insert_id. rewrite Hdoc. do 3 f_equal.
        rewrite <- Hsame, Hs1. unfold values, getAllAnnotations. done. }
      assert (settled s1 p) as Hs'.
      { unfold settled, mirrored. split_and!.
        - exists r. unfold getRepoPath in *. rewrite Hrp1. split; [done|].
          by rewrite Hdisk, Hdoc, Hsame.
        - by rewrite Hrepo1, Hdisk.
        - by rewrite Hrepo1, Hdisk. }
      pose proof (commitChanges_quiet env2 p message s1 Hs') as Hq.
      rewrite Hcommit in Hq. simpl in Hq. by rewrite Hq, Hrepo1.
Qed.

Lemma update_then_commit_witness :
  commits (repo (commitChanges (calm 4) "/tmp/proj" "Update annotation id9"
                   (updateAnnotation (calm 3) "id9" "/tmp/proj" "new" committed_store).1).1)
  = commits (repo committed_store).
Proof.
  destruct (update_then_commit (calm 3) (calm 4) committed_store "id9" "/tmp/proj" "new"
              "Update annotation id9"
              (updateAnnotation (calm 3) "id9" "/tmp/proj" "new" committed_store).1
              (commitChanges (calm 4) "/tmp/proj" "Update annotation id9"
                 (updateAnnotation (calm 3) "id9" "/tmp/proj" "new" committed_store).1).1)
    as (H & _).
  - apply (commitChanges_settled_after (calm 2) "/tmp/proj"
             "Add annotation by Alice to a.ts" sample_store);
      [by apply nothing_committed_yet | by vm_compute].
  - by vm_compute.
  - by vm_compute.
  - apply H. by vm_compute.
Defined.

(** ** The adapter alone *)

(** X15. Without a remote [pull] does nothing and returns, whatever the
    other side would have answered, so that [sync] is [loadAnnotations]. *)
Theorem pull_without_remote env p s :
  git s = true -> getRemotes_fault env = None -> remotes (repo s) = [] ->
  pull env s = (s, Returned tt) ∧ sync env p s = loadAnnotations env p s.
Proof.
  intros Hgit Hfault Hnone.
  assert (pull env s = (s, Returned tt)) as Hpull.
  { unfold pull, git_getRemotes. unfold_M. simpl.
    rewrite Hgit. simpl. rewrite Hfault. simpl. by rewrite Hnone. }
  split; [done|]. unfold sync. unfold_M. by rewrite Hpull.
Qed.

Lemma pull_without_remote_witness :
  pull (conflicting 1) sample_store = (sample_store, Returned tt).
Proof.
  destruct (pull_without_remote (conflicting 1) "/tmp/proj" sample_store) as [H _];
    [reflexivity.. | exact H].
Defined.

Opaque status_of.


Transparent status_of.


(** A file that was renamed and nothing else: git reports the rename
    under [renamed] only, the three lists the adapter looks at are empty,
    and the call returns with the rename staged and not committed. *)
Example rename_alone_is_not_committed :
  commitAndPush (calm 1) "second" renamed_store
  = (staged_all renamed_store, Returned tt)
  ∧ committed (repo renamed_store) ≠ disk renamed_store
  ∧ ¬ nothing_deleted renamed_store.
Proof.
  split_and!.
  - by vm_compute.
  - intros E. apply (f_equal (fun m => m !! "/repo/b")) in E. by vm_compute in E.
  - intros H. destruct (H "/repo/a") as [c Hc]; [by eexists | by vm_compute in Hc].
Qed.

(** X17. What the adapter throws.  Before [initialize] both
    [commitAndPush] and [pull] throw "Git not initialized" and change
    nothing.  Afterwards everything [commitAndPush] throws is a new error
    whose message is "Git operation failed: " followed by the cause, and
    everything [pull] throws is one whose message is "Git pull failed: "
    followed by the cause; the code of the cause is not kept. *)
Theorem adapter_errors env message s :
  (git s = false ->
   commitAndPush env message s = (s, Thrown (mkError "Git not initialized" None))
   ∧ pull env s = (s, Thrown (mkError "Git not initialized" None)))
  ∧ (git s = true ->
     (∀ s' e, commitAndPush env message s = (s', Thrown e) ->
        ∃ cause, e = mkError ("Git operation failed: " +:+ toString cause) None)
     ∧ (∀ s' e, pull env s = (s', Thrown e) ->
        ∃ cause, e = mkError ("Git pull failed: " +:+ toString cause) None)).
Proof.
  split.
  - intros Hgit. unfold commitAndPush, pull. unfold_M. simpl. by rewrite Hgit.
  - intros Hgit. split.
    + intros s' e.
      unfold commitAndPush, git_add, git_status, git_commit, git_getRemotes, git_push.
      unfold_M. simpl. rewrite Hgit. simpl.
      destruct (add_fault env) as [c|]; simpl; [intros E; simplify_eq; by exists c|].
      destruct (status_fault env) as [c|]; simpl; [intros E; simplify_eq; by exists c|].
      match goal with |- context [if ?b then _ else _] => destruct b end; simpl;
        [discriminate|].
      destruct (commit_fault env) as [c|]; simpl; [intros E; simplify_eq; by exists c|].
      destruct (getRemotes_fault env) as [c|]; simpl; [intros E; simplify_eq; by exists c|].
      destruct (0 <? length (remotes (repo s)))%nat; simpl; [|discriminate].
      destruct (push_fault env) as [c|]; simpl; [intros E; simplify_eq; by exists c|].
      discriminate.
    + intros s' e. unfold pull, git_getRemotes, git_pull. unfold_M. simpl.
      rewrite Hgit. simpl.
      destruct (getRemotes_fault env) as [c|]; simpl; [intros E; simplify_eq; by exists c|].
      destruct (0 <? length (remotes (repo s)))%nat; simpl; [|discriminate].
      destruct (pull_result env) as [w i|c w]; simpl; [discriminate|].
      intros E; simplify_eq; by exists c.
Qed.

Lemma adapter_errors_witness :
  pull (calm 1) (mkState [note1] ∅ false None ∅ empty_repository [])
  = (mkState [note1] ∅ false None ∅ empty_repository [],
     Thrown (mkError "Git not initialized" None)).
Proof.
  destruct (adapter_errors (calm 1) "m" (mkState [note1] ∅ false None ∅ empty_repository []))
    as [H _].
  destruct H as [_ H]; [reflexivity | exact H].
Defined.

(** ** Synchronizing *)

Lemma pull_merged env s worktree incoming :
  git s = true -> getRemotes_fault env = None -> remotes (repo s) ≠ [] ->
  pull_result env = Merged worktree incoming ->
  pull env s
  = (set_disk (fun _ => worktree)
       (set_repo (fun r => mkRepository worktree worktree (commits r ++ incoming)
                             (remotes r) (pushes r)) s),
     Returned tt).
Proof.
  intros Hgit Hfault Hremotes Hpull.
  unfold pull, git_getRemotes, git_pull. unfold_M. simpl.
  rewrite Hgit. simpl. rewrite Hfault. simpl.
  destruct (remotes (repo s)) eqn:E; [done|]. simpl. by rewrite Hpull.
Qed.

(** X18. [sync] with a remote, when the pull merges and the project's
    document of the merged tree can be read: the call returns, the
    working tree is the merged one, the history has grown by the incoming
    commits, and the project's collection is what the merged document
    holds, in new objects; annotations that were in memory only are no
    longer in the collection. *)
Theorem sync_installs_pulled env p s r worktree incoming data :
  git s = true -> getRemotes_fault env = None -> remotes (repo s) ≠ [] ->
  pull_result env = Merged worktree incoming ->
  truthy (getRepoPath s) = Some r ->
  worktree !! getAnnotationFilePath p r = Some (Document data) ->
  readFile_fault env = None ->
  let s' := (sync env p s).1 in
  (sync env p s).2 = Returned tt
  ∧ values s' (getAllAnnotations s' p) = AnnotationData.annotations data
  ∧ heap s' = heap s ++ AnnotationData.annotations data
  ∧ Forall (fun a => (length (heap s) <= a)%nat) (getAllAnnotations s' p)
  ∧ disk s' = worktree
  ∧ commits (repo s') = commits (repo s) ++ incoming.
Proof.
  intros Hgit Hfault Hremotes Hpull Hr Hdoc Hread s'. unfold s'. clear s'.
  unfold sync. unfold_M. rewrite (pull_merged env s worktree incoming) by done.
  set (s1 := set_disk (fun _ => worktree) _).
  rewrite (loadAnnotations_document env p s1 r data) by done. simpl.
  assert (getAllAnnotations
            (set_annotations
               (<[p := seq (length (heap s)) (length (AnnotationData.annotations data))]>)
               (set_heap (fun h => h ++ AnnotationData.annotations data) s1)) p
          = seq (length (heap s)) (length (AnnotationData.annotations data))) as Hcoll.
  { unfold getAllAnnotations. simpl. by rewrite lookup_insert_eq. }
  rewrite Hcoll. split_and!; try done.
  - by apply values_fresh.
  - apply Forall_forall. intros a Ha. apply elem_of_seq in Ha. lia.
Qed.

Lemma sync_installs_pulled_witness :
  values (sync (merging 1 pulled_tree ["theirs"]) "/tmp/proj" with_remote).1
         (getAllAnnotations
            (sync (merging 1 pulled_tree ["theirs"]) "/tmp/proj" with_remote).1
            "/tmp/proj")
  = [note4].
Proof.
  destruct (sync_installs_pulled (merging 1 pulled_tree ["theirs"])
              "/tmp/proj" with_remote "/repo" pulled_tree ["theirs"]
              (AnnotationData.mk [note4] "1.0")) as (_ & H & _).
  - reflexivity.
  - reflexivity.
  - done.
  - reflexivity.
  - reflexivity.
  - unfold pulled_tree. apply lookup_singleton_eq.
  - reflexivity.
  - exact H.
Defined.

(** ** Setting the adapter up *)

Ltac unfold_initialize :=
  unfold initialize, fs_access, simpleGit, git_checkIsRepo, git_init, createReadme,
    git_add, git_commit, getRepoPath;
  unfold_M; simpl.

Ltac find_directory Hdir :=
  destruct Hdir as [Hdir|Hdir];
  [rewrite Hdir | destruct (access_fault _); rewrite ?Hdir]; simpl.

Ltac enter_directory Hdir :=
  let Hbound := fresh "Hbound" in
  destruct Hdir as [Hdir Hbound];
  find_directory Hdir; rewrite Hbound; simpl.

Ltac initialize_cases env setup repoPath :=
  unfold truthy;
  repeat match goal with
         | |- context [access_fault setup] => destruct (access_fault setup); simpl
         | |- context [mkdir_fault env] => destruct (mkdir_fault env); simpl
         | |- context [checkIsRepo_result setup] =>
             destruct (checkIsRepo_result setup) as [[]|]; simpl
         | |- context [init_fault setup] => destruct (init_fault setup); simpl
         | |- context [String.eqb repoPath ""] =>
             destruct (String.eqb repoPath ""); simpl
         | |- context [simpleGit_fault setup] => destruct (simpleGit_fault setup); simpl
         | |- context [writeFile_fault env] =>
             destruct (writeFile_fault env) as [[? [?|]]|]; simpl
         | |- context [add_fault env] => destruct (add_fault env); simpl
         | |- context [commit_fault env] => destruct (commit_fault env); simpl
         end;
  done.

(** X19. [initialize] on a directory that is no repository yet, with
    nothing failing: the adapter is bound to the path, the README is
    written into the directory, and the history is the single commit
    "Initial commit", which holds the whole working tree; no remote is
    configured.  The collections in memory are untouched, and a
    [commitAndPush] issued right afterwards finds nothing to commit. *)
Theorem initialize_fresh env setup repoPath s :
  repoPath ≠ "" ->
  directory_ready env setup ->
  checkIsRepo_result setup = Returned false ->
  init_fault setup = None ->
  writeFile_fault env = None -> add_fault env = None -> commit_fault env = None ->
  let s' := (initialize env setup repoPath s).1 in
  (initialize env setup repoPath s).2 = Returned tt
  ∧ git s' = true ∧ getRepoPath s' = Some repoPath
  ∧ disk s' = <[Path.join2 repoPath "README.md" := Text readme]> (disk s)
  ∧ commits (repo s') = ["Initial commit"]
  ∧ committed (repo s') = disk s' ∧ staging (repo s') = disk s'
  ∧ remotes (repo s') = []
  ∧ heap s' = heap s ∧ annotations s' = annotations s
  ∧ (∀ env' message,
       commits (repo (commitAndPush env' message s').1) = ["Initial commit"]).
Proof.
  intros Hpath Hdir Hrepo Hinit Hwrite Hadd Hcommit s'.
  assert (initialize env setup repoPath s
          = (mkState (heap s) (annotations s) true (Some repoPath)
               (<[Path.join2 repoPath "README.md" := Text readme]> (disk s))
               (mkRepository
                  (<[Path.join2 repoPath "README.md" := Text readme]> (disk s))
                  (<[Path.join2 repoPath "README.md" := Text readme]> (disk s))
                  ["Initial commit"] [] 0)
               (warnings s), Returned tt)) as Hrun.
  { unfold_initialize. enter_directory Hdir;
      rewrite Hrepo; simpl; rewrite Hinit; simpl;
      unfold truthy; rewrite (proj2 (String.eqb_neq _ _) Hpath); simpl;
      rewrite Hwrite; simpl; rewrite Hadd; simpl; by rewrite Hcommit. }
  unfold s'. rewrite Hrun. simpl. split_and!; try done.
  intros env' message. by rewrite commitAndPush_clean.
Qed.

Lemma initialize_fresh_witness :
  commits (repo (initialize (calm 1) fresh_directory "/repo" blank_store).1)
  = ["Initial commit"].
Proof.
  destruct (initialize_fresh (calm 1) fresh_directory "/repo" blank_store)
    as (_ & _ & _ & _ & H & _);
    [done | split; [by right | reflexivity] | reflexivity | reflexivity
     | reflexivity | reflexivity | reflexivity | exact H].
Defined.

(** X20. [initialize] on a directory that is a repository already binds
    the adapter and does nothing else: no README, no commit.  It does not
    look at the collections in memory either, so after pointing the
    adapter at another repository the store keeps answering from the
    annotations of the previous one until [loadAnnotations] runs. *)
Theorem initialize_existing env setup repoPath s :
  directory_ready env setup ->
  checkIsRepo_result setup = Returned true ->
  initialize env setup repoPath s
  = (set_git true (set_repoPath (Some repoPath) s), Returned tt)
  ∧ (∀ p, getAllAnnotations (initialize env setup repoPath s).1 p
          = getAllAnnotations s p).
Proof.
  intros Hdir Hrepo.
  assert (initialize env setup repoPath s
          = (set_git true (set_repoPath (Some repoPath) s), Returned tt)) as Hrun.
  { unfold_initialize. enter_directory Hdir; by rewrite Hrepo. }
  split; [done|]. intros p. by rewrite Hrun.
Qed.

Lemma initialize_existing_witness :
  getAllAnnotations
    (initialize (calm 1) (mkSetup None None (Returned true) None (fun _ => Returned ""))
       "/elsewhere" sample_store).1 "/tmp/proj"
  = getAllAnnotations sample_store "/tmp/proj".
Proof.
  destruct (initialize_existing (calm 1)
              (mkSetup None None (Returned true) None (fun _ => Returned ""))
              "/elsewhere" sample_store) as [_ H];
    [split; [by left | reflexivity] | reflexivity | apply H].
Defined.

(** X21. What a failing [initialize] leaves behind.  The path is
    assigned first, so it is configured whatever happens next, and the
    errors of the steps are thrown as they are.  When the directory can
    neither be found nor made the adapter keeps the binding it had, and
    so it does when the path is there and [simpleGit] refuses it (it is
    a regular file, say); when [simpleGit] accepts the directory and
    [checkIsRepo] throws, the adapter is bound all the same; when writing
    the README fails the new repository has no commit, and nothing but
    the README, which may have been written in part, has changed on
    disk. *)
Theorem initialize_partial env setup repoPath s :
  let s' := (initialize env setup repoPath s).1 in
  let result := (initialize env setup repoPath s).2 in
  getRepoPath s' = Some repoPath
  ∧ heap s' = heap s ∧ annotations s' = annotations s ∧ warnings s' = warnings s
  ∧ (∀ e1 e2, access_fault setup = Some e1 -> mkdir_fault env = Some e2 ->
       result = Thrown e2 ∧ git s' = git s ∧ repo s' = repo s ∧ disk s' = disk s)
  ∧ (∀ e, access_fault setup = None ∨ mkdir_fault env = None ->
       simpleGit_fault setup = Some e ->
       result = Thrown e ∧ git s' = git s ∧ repo s' = repo s ∧ disk s' = disk s)
  ∧ (directory_ready env setup -> git s' = true)
  ∧ (∀ e, directory_ready env setup -> checkIsRepo_result setup = Thrown e ->
       result = Thrown e ∧ repo s' = repo s ∧ disk s' = disk s)
  ∧ (∀ failure, directory_ready env setup ->
       checkIsRepo_result setup = Returned false ->
       init_fault setup = None -> repoPath ≠ "" ->
       writeFile_fault env = Some failure ->
       let file := Path.join2 repoPath "README.md" in
       result = Thrown (write_error failure) ∧ commits (repo s') = []
       ∧ (∀ other, other ≠ file -> disk s' !! other = disk s !! other)
       ∧ disk s' !! file = match write_residue failure with
                           | Some raw => Some (Text raw)
                           | None => disk s !! file
                           end).
Proof.
  intros s' result. unfold s', result. clear s' result. split_and!.
  - unfold_initialize. initialize_cases env setup repoPath.
  - unfold_initialize. initialize_cases env setup repoPath.
  - unfold_initialize. initialize_cases env setup repoPath.
  - unfold_initialize. initialize_cases env setup repoPath.
  - intros e1 e2 Ha Hm. unfold_initialize. by rewrite Ha, Hm.
  - intros e Hdir Hrefused. unfold_initialize.
    find_directory Hdir; by rewrite Hrefused.
  - intros Hdir. unfold_initialize.
    enter_directory Hdir; initialize_cases env setup repoPath.
  - intros e Hdir Hrepo. unfold_initialize. enter_directory Hdir; by rewrite Hrepo.
  - intros failure Hdir Hrepo Hinit Hpath Hwrite. unfold_initialize.
    unfold fs_writeFile. unfold_M.
    enter_directory Hdir;
      rewrite Hrepo; simpl; rewrite Hinit; simpl;
      unfold truthy; rewrite (proj2 (String.eqb_neq _ _) Hpath); simpl;
      rewrite Hwrite; simpl; destruct (write_residue failure); simpl;
      (split_and!;
       [done | done
       |intros other Hother; by rewrite ?lookup_insert_ne
       |by rewrite ?lookup_insert_eq]).
Qed.

Lemma initialize_partial_witness :
  git (initialize (calm 1)
         (mkSetup None None (Thrown (mkError "fatal: unsafe repository" None)) None
                  (fun _ => Returned ""))
         "/repo" blank_store).1 = true.
Proof.
  destruct (initialize_partial (calm 1)
              (mkSetup None None (Thrown (mkError "fatal: unsafe repository" None)) None
                       (fun _ => Returned ""))
              "/repo" blank_store) as (_ & _ & _ & _ & _ & _ & H & _).
  apply H. split; [by left | reflexivity].
Defined.

(** ** The user's name and email *)

Lemma trim_start_spec s :
  ∃ pre, s = pre ++ trim_start s ∧ forallb is_white_space pre = true
         ∧ (∀ c rest, trim_start s = c :: rest -> is_white_space c = false).
Proof.
  induction s as [|x s (pre & Hs & Hpre & Hfirst)]; simpl.
  - exists []. split_and!; [done | done | discriminate].
  - destruct (is_white_space x) eqn:Hx.
    + exists (x :: pre). split_and!; [simpl; by f_equal | by simpl; rewrite Hx | done].
    + exists []. split_and!; [done | done |]. intros c rest E. by simplify_eq.
Qed.

Lemma forallb_rev {A} (f : A -> bool) l : forallb f (rev l) = forallb f l.
Proof.
  induction l as [|x l IH]; simpl; [done|].
  rewrite forallb_app, IH. simpl. rewrite andb_true_r. apply andb_comm.
Qed.

Lemma trim_start_nil_iff s : trim_start s = [] <-> forallb is_white_space s = true.
Proof.
  induction s as [|x s IH]; simpl; [done|].
  destruct (is_white_space x); simpl; [done|]. split; discriminate.
Qed.

(** [trim] removes white space at both ends and nothing else: what it
    returns neither starts nor ends with white space. *)
Lemma trim_chars_spec s :
  ∃ pre post, s = pre ++ trim_chars s ++ post
    ∧ forallb is_white_space pre = true ∧ forallb is_white_space post = true
    ∧ (∀ c rest, trim_chars s = c :: rest -> is_white_space c = false)
    ∧ (∀ c rest, trim_chars s = rest ++ [c] -> is_white_space c = false).
Proof.
  unfold trim_chars.
  destruct (trim_start_spec s) as (pre & Hs & Hpre & Hfirst).
  destruct (trim_start_spec (rev (trim_start s))) as (post & Hr & Hpost & Hlast).
  exists pre, (rev post). split_and!.
  - rewrite Hs at 1. f_equal.
    rewrite <- (rev_involutive (trim_start s)) at 1. rewrite Hr at 1.
    by rewrite rev_app_distr.
  - done.
  - by rewrite forallb_rev.
  - intros c rest E. apply (f_equal (@rev ascii)) in Hr.
    rewrite rev_involutive, rev_app_distr, E in Hr. simpl in Hr.
    by eapply Hfirst.
  - intros c rest E. apply (f_equal (@rev ascii)) in E.
    rewrite rev_involutive, rev_app_distr in E. simpl in E. by eapply Hlast.
Qed.

Lemma trim_blank s :
  trim s = "" <-> forallb is_white_space (list_ascii_of_string s) = true.
Proof.
  unfold trim, trim_chars. set (chars := list_ascii_of_string s). split.
  - intros E. apply (f_equal list_ascii_of_string) in E.
    rewrite list_ascii_of_string_of_list_ascii in E. simpl in E.
    apply (f_equal (@rev ascii)) in E. rewrite rev_involutive in E. simpl in E.
    apply trim_start_nil_iff in E. rewrite forallb_rev in E.
    destruct (trim_start_spec chars) as (pre & Hs & Hpre & _).
    rewrite Hs, forallb_app, Hpre, E. done.
  - intros Hall. apply trim_start_nil_iff in Hall. by rewrite Hall.
Qed.

Lemma or_else_nonempty x fallback : fallback ≠ "" -> or_else x fallback ≠ "".
Proof. intros Hf. unfold or_else. by destruct (String.eqb_spec x ""). Qed.

Lemma getGitUserInfo_cases setup s :
  getGitUserInfo setup s
  = match git s, raw setup ["config"; "user.name"], raw setup ["config"; "user.email"] with
    | true, Returned name, Returned email =>
        (s, Returned (UserInfo.mk (or_else (trim name) "Unknown")
                                  (or_else (trim email) "unknown@example.com")))
    | _, _, _ =>
        (set_warnings (fun w => w ++ ["Could not get git user info. Using defaults."]) s,
         Returned (UserInfo.mk "Unknown" "unknown@example.com"))
    end.
Proof.
  unfold getGitUserInfo, executeGitCommand, git_raw. unfold_M. simpl.
  destruct (git s) eqn:Hgit; simpl; [|done].
  destruct (raw setup ["config"; "user.name"]); simpl; rewrite ?Hgit; simpl; [|done].
  destruct (raw setup ["config"; "user.email"]); simpl; done.
Qed.

(** X22. [getGitUserInfo] never throws and never returns an empty name
    or email.  It changes nothing but the list of warnings shown, which
    grows by at most the one warning about defaults. *)
Theorem getGitUserInfo_total setup s :
  ∃ s' info, getGitUserInfo setup s = (s', Returned info)
    ∧ UserInfo.name info ≠ "" ∧ UserInfo.email info ≠ ""
    ∧ (s' = s
       ∨ s' = set_warnings
                (fun w => w ++ ["Could not get git user info. Using defaults."]) s).
Proof.
  rewrite getGitUserInfo_cases.
  destruct (git s), (raw setup ["config"; "user.name"]) as [name|],
    (raw setup ["config"; "user.email"]) as [email|];
    eexists _, _; (split; [reflexivity|]); simpl;
    split_and!; try done; try (by apply or_else_nonempty); by (left + right).
Qed.

(** X23. The defaults are all or nothing.  When the adapter is not
    bound, or either query fails, the answer is the pair of defaults and
    one warning is shown, even if the name was found.  When both queries
    answer, no warning is shown, and each field is the answer without
    the white space around it, or the default of the field when the
    answer is blank. *)
Theorem getGitUserInfo_defaults setup s :
  let name := raw setup ["config"; "user.name"] in
  let email := raw setup ["config"; "user.email"] in
  let defaults := UserInfo.mk "Unknown" "unknown@example.com" in
  ((git s = false ∨ (∃ e, name = Thrown e) ∨ (∃ e, email = Thrown e)) ->
   getGitUserInfo setup s
   = (set_warnings (fun w => w ++ ["Could not get git user info. Using defaults."]) s,
      Returned defaults))
  ∧ (∀ n m, git s = true -> name = Returned n -> email = Returned m ->
       ∃ info, getGitUserInfo setup s = (s, Returned info)
         ∧ (forallb is_white_space (list_ascii_of_string n) = true ->
            UserInfo.name info = "Unknown")
         ∧ (forallb is_white_space (list_ascii_of_string n) = false ->
            ∃ pre post,
              list_ascii_of_string n
              = pre ++ list_ascii_of_string (UserInfo.name info) ++ post
              ∧ forallb is_white_space pre = true ∧ forallb is_white_space post = true
              ∧ (∀ c rest, list_ascii_of_string (UserInfo.name info) = c :: rest ->
                   is_white_space c = false)
              ∧ (∀ c rest, list_ascii_of_string (UserInfo.name info) = rest ++ [c] ->
                   is_white_space c = false))
         ∧ UserInfo.email info = or_else (trim m) "unknown@example.com").
Proof.
  intros name email defaults. unfold name, email. rewrite getGitUserInfo_cases. split.
  - intros [Hgit | [[e He] | [e He]]].
    + by rewrite Hgit.
    + rewrite He. by destruct (git s).
    + rewrite He. by destruct (git s), (raw setup ["config"; "user.name"]).
  - intros n m Hgit Hn Hm. rewrite Hgit, Hn, Hm. eexists. split; [reflexivity|].
    simpl. split_and!; [| |done].
    + intros Hblank. apply trim_blank in Hblank. by rewrite Hblank.
    + intros Hsome. unfold or_else.
      destruct (String.eqb_spec (trim n) "") as [E|E].
      { apply trim_blank in E. congruence. }
      unfold trim. rewrite list_ascii_of_string_of_list_ascii.
      apply trim_chars_spec.
Qed.

Lemma getGitUserInfo_defaults_witness :
  getGitUserInfo fresh_directory blank_store
  = (set_warnings (fun w => w ++ ["Could not get git user info. Using defaults."])
       blank_store,
     Returned (UserInfo.mk "Unknown" "unknown@example.com")).
Proof.
  destruct (getGitUserInfo_defaults fresh_directory blank_store) as [H _].
  apply H. by left.
Defined.

(** ** The code lenses *)

Lemma starts_with_spec prefix s :
  Provider.starts_with prefix s = true <-> ∃ rest, s = prefix ++ rest.
Proof.
  revert s. induction prefix as [|c prefix IH]; intros s; simpl.
  - split; [intros _; by exists s | done].
  - destruct s as [|d s].
    + split; [done | intros [rest E]; discriminate].
    + rewrite andb_true_iff, Ascii.eqb_eq, IH. split.
      * intros [-> [rest ->]]. by exists rest.
      * intros [rest E]. injection E as -> ->. split; [done | by exists rest].
Qed.

Lemma endsWith_spec s suffix :
  Provider.endsWith s suffix = true <-> ∃ front, s = front ++ suffix.
Proof.
  unfold Provider.endsWith. rewrite starts_with_spec. split.
  - intros [rest E]. exists (rev rest).
    apply (f_equal (@rev ascii)) in E.
    by rewrite rev_involutive, rev_app_distr, rev_involutive in E.
  - intros [front ->]. exists (rev front). by rewrite rev_app_distr.
Qed.

Lemma chars_eqb_spec s t : Provider.chars_eqb s t = true <-> s = t.
Proof.
  unfold Provider.chars_eqb. rewrite String.eqb_eq. split; [|by intros ->].
  intros E. apply (f_equal list_ascii_of_string) in E.
  by rewrite !list_ascii_of_string_of_list_ascii in E.
Qed.

(** X24. A stored path stands for a document exactly when, backslashes
    read as slashes, it is the path of the document or what follows one
    of its slashes: it matches whole trailing segments only.  The first
    [endsWith] of the test adds nothing to the rest of it. *)
Theorem matches_whole_segments filePath storedPath :
  let file := Provider.replace_backslashes (list_ascii_of_string filePath) in
  let stored := Provider.replace_backslashes (list_ascii_of_string storedPath) in
  (Provider.matches filePath storedPath = true
   <-> file = stored ∨ ∃ directory, file = directory ++ Provider.slash :: stored)
  ∧ Provider.matches filePath storedPath
    = (Provider.chars_eqb file stored
       || Provider.endsWith file (Provider.slash :: stored)).
Proof.
  intros file stored.
  assert (Provider.chars_eqb file stored
          || Provider.endsWith file (Provider.slash :: stored) = true
          -> Provider.endsWith file stored = true) as Hfirst.
  { rewrite orb_true_iff, chars_eqb_spec, !endsWith_spec.
    intros [->|[front ->]]; [by exists [] |].
    exists (front ++ [Provider.slash]). by rewrite <- app_assoc. }
  split.
  - unfold Provider.matches. fold file stored.
    rewrite andb_true_iff, orb_true_iff, chars_eqb_spec, !endsWith_spec. split.
    + intros [_ H]. exact H.
    + intros H. split; [|exact H]. rewrite <- endsWith_spec. apply Hfirst.
      by rewrite orb_true_iff, chars_eqb_spec, endsWith_spec.
  - unfold Provider.matches. fold file stored.
    destruct (Provider.chars_eqb file stored
              || Provider.endsWith file (Provider.slash :: stored)) eqn:E.
    + by rewrite (Hfirst eq_refl).
    + apply andb_false_r.
Qed.

(** What the first loop keeps true of [seenIds] and [fileAnnotations]:
    the ids seen are the ids of the annotations kept, and no id was seen
    twice. *)
Lemma push_unseen_spec h refs acc :
  acc.1 = omap (fun a => Annotation.id <$> h !! a) acc.2 -> NoDup acc.1 ->
  let r := Provider.push_unseen h refs acc in
  r.1 = omap (fun a => Annotation.id <$> h !! a) r.2 ∧ NoDup r.1
  ∧ (∃ extra, r.2 = acc.2 ++ extra
       ∧ ∀ a, a ∈ extra -> a ∈ refs ∧ is_Some (h !! a))
  ∧ (∀ i, i ∈ acc.1 -> i ∈ r.1)
  ∧ (∀ a o, a ∈ refs -> h !! a = Some o -> Annotation.id o ∈ r.1).
Proof.
  revert acc. induction refs as [|a refs IH]; intros acc Hids Hnd; simpl.
  - split_and!; [done | done | | done |].
    + exists []. split; [by rewrite app_nil_r|]. intros a Ha. by apply elem_of_nil in Ha.
    + intros a o Ha. by apply elem_of_nil in Ha.
  - destruct (h !! a) as [o|] eqn:Ho.
    + destruct (existsb (String.eqb (Annotation.id o)) acc.1) eqn:Hseen.
      * destruct (IH acc Hids Hnd) as (H1 & H2 & (extra & H3 & H3') & H4 & H5).
        split_and!; [done | done | | done |].
        -- exists extra. split; [done|]. intros b Hb.
           destruct (H3' b Hb) as [Hin Hsome]. split; [by right | done].
        -- intros b ob Hb Hob. apply elem_of_cons in Hb as [->|Hb]; [|by eapply H5].
           assert (ob = o) as -> by congruence. apply H4.
           apply existsb_exists in Hseen as (i & Hi & E).
           apply String.eqb_eq in E. subst i. by apply list_elem_of_In.
      * assert (Annotation.id o ∉ acc.1) as Hfresh.
        { intros Hin. apply list_elem_of_In in Hin.
          assert (existsb (String.eqb (Annotation.id o)) acc.1 = true) as E; [|congruence].
          apply existsb_exists. exists (Annotation.id o).
          split; [done | apply String.eqb_refl]. }
        destruct (IH (acc.1 ++ [Annotation.id o], acc.2 ++ [a]))
          as (H1 & H2 & (extra & H3 & H3') & H4 & H5).
        { simpl. rewrite omap_app. simpl. rewrite Ho. simpl. by rewrite Hids. }
        { simpl. apply NoDup_app. split_and!; [done | | apply NoDup_singleton].
          intros i Hi Hi'. apply list_elem_of_singleton in Hi'. by subst i. }
        simpl in *. split_and!; [done | done | | |].
        -- exists (a :: extra). split; [by rewrite H3, <- app_assoc|].
           intros b Hb. apply elem_of_cons in Hb as [->|Hb].
           ++ split; [by left | by rewrite Ho].
           ++ destruct (H3' b Hb) as [Hin Hsome]. split; [by right | done].
        -- intros i Hi. apply H4. apply elem_of_app. by left.
        -- intros b ob Hb Hob. apply elem_of_cons in Hb as [->|Hb]; [|by eapply H5].
           assert (ob = o) as -> by congruence. apply H4.
           apply elem_of_app. right. by apply list_elem_of_singleton.
    + destruct (IH acc Hids Hnd) as (H1 & H2 & (extra & H3 & H3') & H4 & H5).
      split_and!; [done | done | | done |].
      * exists extra. split; [done|]. intros b Hb.
        destruct (H3' b Hb) as [Hin Hsome]. split; [by right | done].
      * intros b ob Hb Hob. apply elem_of_cons in Hb as [->|Hb]; [congruence|].
        by eapply H5.
Qed.

Lemma collect_spec h filePath entries acc :
  acc.1 = omap (fun a => Annotation.id <$> h !! a) acc.2 -> NoDup acc.1 ->
  let r := Provider.collect h filePath entries acc in
  r.1 = omap (fun a => Annotation.id <$> h !! a) r.2 ∧ NoDup r.1
  ∧ (∃ extra, r.2 = acc.2 ++ extra
       ∧ ∀ a, a ∈ extra ->
           is_Some (h !! a)
           ∧ ∃ key refs, (key, refs) ∈ entries
               ∧ Provider.matches filePath key = true ∧ a ∈ refs)
  ∧ (∀ i, i ∈ acc.1 -> i ∈ r.1)
  ∧ (∀ key refs a o, (key, refs) ∈ entries -> Provider.matches filePath key = true ->
       a ∈ refs -> h !! a = Some o -> Annotation.id o ∈ r.1).
Proof.
  revert acc. induction entries as [|[key refs] entries IH]; intros acc Hids Hnd; simpl.
  - split_and!; [done | done | | done |].
    + exists []. split; [by rewrite app_nil_r|]. intros a Ha. by apply elem_of_nil in Ha.
    + intros key refs a o Hin. by apply elem_of_nil in Hin.
  - destruct (Provider.matches filePath key) eqn:Hmatch.
    + destruct (push_unseen_spec h refs acc Hids Hnd)
        as (P1 & P2 & (extra1 & P3 & P3') & P4 & P5).
      destruct (IH (Provider.push_unseen h refs acc) P1 P2)
        as (H1 & H2 & (extra & H3 & H3') & H4 & H5).
      split_and!; [done | done | | |].
      * exists (extra1 ++ extra). split; [by rewrite H3, P3, <- app_assoc|].
        intros a Ha. apply elem_of_app in Ha as [Ha|Ha].
        -- destruct (P3' a Ha) as [Hin Hsome]. split; [done|].
           exists key, refs. split_and!; [by left | done | done].
        -- destruct (H3' a Ha) as (Hsome & k & l & Hkl & Hm & Hl). split; [done|].
           exists k, l. split_and!; [by right | done | done].
      * intros i Hi. by apply H4, P4.
      * intros k l a o Hkl Hm Ha Ho. apply elem_of_cons in Hkl as [E|Hkl].
        -- injection E as -> ->. apply H4. by eapply P5.
        -- by eapply H5.
    + destruct (IH acc Hids Hnd) as (H1 & H2 & (extra & H3 & H3') & H4 & H5).
      split_and!; [done | done | | done |].
      * exists extra. split; [done|]. intros a Ha.
        destruct (H3' a Ha) as (Hsome & k & l & Hkl & Hm & Hl). split; [done|].
        exists k, l. split_and!; [by right | done | done].
      * intros k l a o Hkl Hm Ha Ho. apply elem_of_cons in Hkl as [E|Hkl].
        -- injection E as -> ->. congruence.
        -- by eapply H5.
Qed.

(** X25. The annotations the provider shows for a document carry
    pairwise different ids; each of them is an annotation of an entry
    whose stored path matches the document; and every id found under a
    matching entry is the id of one annotation shown. *)
Theorem fileAnnotations_deduplicated h filePath p :
  let shown := Provider.fileAnnotations h filePath p in
  NoDup (omap (fun a => Annotation.id <$> h !! a) shown)
  ∧ (∀ a, a ∈ shown ->
       ∃ key refs, (key, refs) ∈ Provider.annotations p
         ∧ Provider.matches filePath key = true ∧ a ∈ refs)
  ∧ (∀ key refs a o, (key, refs) ∈ Provider.annotations p ->
       Provider.matches filePath key = true -> a ∈ refs -> h !! a = Some o ->
       ∃ b o', b ∈ shown ∧ h !! b = Some o' ∧ Annotation.id o' = Annotation.id o).
Proof.
  intros shown. unfold shown, Provider.fileAnnotations.
  destruct (collect_spec h filePath (Provider.annotations p) ([], []) eq_refl)
    as (H1 & H2 & (extra & H3 & H3') & _ & H5); [apply NoDup_nil_2|].
  simpl in H3. split_and!.
  - by rewrite <- H1.
  - intros a Ha. rewrite H3 in Ha. by destruct (H3' a Ha) as [_ H].
  - intros key refs a o Hin Hm Ha Ho.
    specialize (H5 key refs a o Hin Hm Ha Ho). rewrite H1 in H5.
    apply list_elem_of_omap in H5 as (b & Hb & Hid).
    destruct (h !! b) as [o'|] eqn:Hb'; [|done]. simpl in Hid.
    exists b, o'. split_and!; [done | done | congruence].
Qed.

Lemma lens_of_range toLocaleString lineCount o lens :
  Provider.lens_of toLocaleString lineCount o = Some lens ->
  0 <= Provider.range_line lens < lineCount
  ∧ Provider.range_line lens = Z.max 0 (Annotation.line o - 1)
  ∧ Provider.command lens = "".
Proof.
  unfold Provider.lens_of.
  destruct (Z.max 0 (Annotation.line o - 1) >=? lineCount) eqn:E; [done|].
  rewrite Z.geb_leb in E. apply Z.leb_gt in E.
  intros H. injection H as <-. simpl. split_and!; [lia | lia | done | done].
Qed.

(** X26. Every code lens sits on a line of the document: its line is
    the line of its annotation less one, or 0 for an annotation on line 1
    or below, and it lies under the line count, annotations beyond the
    end being left out.  A lens does nothing when clicked, and a
    provider that is switched off provides no lens. *)
Theorem provideCodeLenses_range toLocaleString h filePath lineCount p lens :
  lens ∈ Provider.provideCodeLenses toLocaleString h filePath lineCount p ->
  Provider.enabled p = true
  ∧ 0 <= Provider.range_line lens < lineCount
  ∧ Provider.command lens = ""
  ∧ ∃ a o, a ∈ Provider.fileAnnotations h filePath p ∧ h !! a = Some o
      ∧ Provider.range_line lens = Z.max 0 (Annotation.line o - 1).
Proof.
  unfold Provider.provideCodeLenses.
  destruct (Provider.enabled p); simpl; [|intros H; by apply elem_of_nil in H].
  intros H. apply list_elem_of_omap in H as (a & Ha & Hlens).
  destruct (h !! a) as [o|] eqn:Ho; [|done]. simpl in Hlens.
  destruct (lens_of_range _ _ _ _ Hlens) as (Hrange & Hline & Hcommand).
  split_and!; [done | lia | lia | done |]. by exists a, o.
Qed.

Lemma provideCodeLenses_range_witness :
  0 <= Provider.range_line sample_lens < 100.
Proof.
  destruct (provideCodeLenses_range (fun _ => "") [note1; note2; note3]
              "/tmp/proj/src/a.ts" 100 sample_provider sample_lens)
    as (_ & H & _).
  - vm_compute. left.
  - exact H.
Defined.

Lemma push_unseen_ids h h' refs acc :
  (∀ a, Annotation.id <$> h' !! a = Annotation.id <$> h !! a) ->
  Provider.push_unseen h' refs acc = Provider.push_unseen h refs acc.
Proof.
  intros Hids. revert acc. induction refs as [|a refs IH]; intros acc; simpl; [done|].
  specialize (Hids a). unfold ref in *.
  destruct (h' !! a) as [o'|], (h !! a) as [o|]; simpl in Hids;
    [|discriminate|discriminate|apply IH].
  injection Hids as ->.
  destruct (existsb (String.eqb (Annotation.id o)) acc.1); apply IH.
Qed.

Lemma collect_ids h h' filePath entries acc :
  (∀ a, Annotation.id <$> h' !! a = Annotation.id <$> h !! a) ->
  Provider.collect h' filePath entries acc = Provider.collect h filePath entries acc.
Proof.
  intros Hids. revert acc.
  induction entries as [|[key refs] entries IH]; intros acc; simpl; [done|].
  destruct (Provider.matches filePath key); [|apply IH].
  by rewrite (push_unseen_ids h h'), IH.
Qed.

(** X27. The provider holds the objects of the store, not copies.
    After an [updateAnnotation] that found its annotation, and without
    any call to the provider, the provider shows the same annotations as
    before, and the lens of the updated one is made from the new text. *)
Theorem lenses_follow_updates toLocaleString env s id projectPath newText a o
    filePath lineCount p lens :
  getAnnotationById s id projectPath = Some a ->
  heap s !! a = Some o ->
  Provider.enabled p = true ->
  a ∈ Provider.fileAnnotations (heap s) filePath p ->
  let s' := (updateAnnotation env id projectPath newText s).1 in
  Provider.fileAnnotations (heap s') filePath p
  = Provider.fileAnnotations (heap s) filePath p
  ∧ (Provider.lens_of toLocaleString lineCount
       (set_timestamp (now env) (set_text newText o)) = Some lens ->
     lens ∈ Provider.provideCodeLenses toLocaleString (heap s') filePath lineCount p).
Proof.
  intros Hfound Ho Hon Hshown s'.
  assert (∀ b, heap s' !! b
               = if decide (a = b)
                 then (fun x => set_timestamp (now env) (set_text newText x)) <$> heap s !! b
                 else heap s !! b) as Hheap.
  { intros b. by apply updateAnnotation_heap_lookup. }
  assert (Provider.fileAnnotations (heap s') filePath p
          = Provider.fileAnnotations (heap s) filePath p) as Hsame.
  { unfold Provider.fileAnnotations. f_equal. apply collect_ids.
    intros b. rewrite Hheap. case_decide; [|done]. unfold ref in *.
    by destruct (heap s !! b) as [[]|]. }
  split; [done|]. intros Hlens.
  unfold Provider.provideCodeLenses. rewrite Hon, Hsame. simpl.
  apply list_elem_of_omap. exists a. split; [done|].
  rewrite Hheap, decide_True, Ho by done. exact Hlens.
Qed.

Lemma lenses_follow_updates_witness :
  Provider.fileAnnotations
    (heap (updateAnnotation (calm 5) "id1" "/tmp/proj" "done" sample_store).1)
    "/tmp/proj/src/a.ts" sample_provider
  = Provider.fileAnnotations (heap sample_store) "/tmp/proj/src/a.ts" sample_provider.
Proof.
  destruct (lenses_follow_updates (fun _ => "") (calm 5) sample_store "id1" "/tmp/proj"
              "done" 0%nat note1 "/tmp/proj/src/a.ts" 100 sample_provider
              (Provider.mkCodeLens 9 "" "" "")) as [H _].
  - reflexivity.
  - reflexivity.
  - reflexivity.
  - vm_compute. left.
  - exact H.
Defined.

(** ** Filling the provider from the store *)

Lemma push_unseen_fresh h refs acc :
  NoDup (acc.1 ++ omap (fun a => Annotation.id <$> h !! a) refs) ->
  Forall (fun a => is_Some (h !! a)) refs ->
  Provider.push_unseen h refs acc
  = (acc.1 ++ omap (fun a => Annotation.id <$> h !! a) refs, acc.2 ++ refs).
Proof.
  unfold ref in *. revert acc.
  induction refs as [|a refs IH]; intros [seen out] Hnd Hvalid; simpl in *.
  - by rewrite !app_nil_r.
  - apply Forall_cons in Hvalid as [[o Ho] Hvalid]. unfold ref in *.
    rewrite Ho in *. simpl in *.
    assert (existsb (String.eqb (Annotation.id o)) seen = false) as ->.
    { apply not_true_is_false. intros E.
      apply existsb_exists in E as (i & Hi & E). apply String.eqb_eq in E. subst i.
      apply NoDup_app in Hnd as (_ & Hdisj & _).
      apply (Hdisj (Annotation.id o)); [by apply list_elem_of_In | by left]. }
    rewrite IH; simpl; [by rewrite <- !app_assoc | by rewrite <- app_assoc | done].
Qed.

Lemma collect_none h filePath entries acc :
  (∀ key refs, (key, refs) ∈ entries -> Provider.matches filePath key = false) ->
  Provider.collect h filePath entries acc = acc.
Proof.
  induction entries as [|[key refs] entries IH]; intros Hnone; simpl; [done|].
  rewrite (Hnone key refs) by (by left). apply IH.
  intros k l Hin. apply (Hnone k l). by right.
Qed.

Lemma map_set_key_cases key value m k :
  k ∈ map fst (Provider.map_set key value m) -> k = key ∨ k ∈ map fst m.
Proof.
  induction m as [|[k' v'] m IH]; simpl.
  - intros Hin. apply list_elem_of_singleton in Hin. by left.
  - destruct (String.eqb_spec k' key) as [->|Hne]; simpl; intros Hin.
    + by right.
    + apply elem_of_cons in Hin as [->|Hin]; [right; by left|].
      destruct (IH Hin) as [->|H]; [by left | right; by right].
Qed.

Lemma map_set_keys key value m :
  NoDup (map fst m) -> NoDup (map fst (Provider.map_set key value m)).
Proof.
  induction m as [|[k v] m IH]; simpl; intros Hnd.
  - apply NoDup_singleton.
  - apply NoDup_cons in Hnd as [Hk Hnd]. destruct (String.eqb_spec k key); simpl.
    + by apply NoDup_cons.
    + apply NoDup_cons. split; [|by apply IH].
      intros Hin. by apply map_set_key_cases in Hin as [?|?].
Qed.

Lemma collect_map_set h filePath key refs m acc :
  NoDup (map fst m) ->
  Provider.matches filePath key = true ->
  (∀ k l, (k, l) ∈ m -> k ≠ key -> Provider.matches filePath k = false) ->
  Provider.collect h filePath (Provider.map_set key refs m) acc
  = Provider.push_unseen h refs acc.
Proof.
  intros Hnd Hmatch Hothers. revert acc.
  induction m as [|[k v] m IH]; intros acc; simpl; [by rewrite Hmatch|].
  apply NoDup_cons in Hnd as [Hk Hnd].
  destruct (String.eqb_spec k key) as [->|Hne]; simpl.
  - rewrite Hmatch. apply collect_none. intros k l Hin.
    apply (Hothers k l); [by right|]. intros ->. apply Hk.
    apply list_elem_of_fmap. by exists (key, l).
  - rewrite (Hothers k v) by (done || by left). apply IH; [done|].
    intros k' l Hin. apply (Hothers k' l). by right.
Qed.

Lemma map_delete_entries key m k l :
  (k, l) ∈ Provider.map_delete key m -> (k, l) ∈ m ∧ k ≠ key.
Proof.
  unfold Provider.map_delete. intros Hin.
  apply list_elem_of_In, filter_In in Hin as [Hin Hk]. simpl in Hk.
  split; [by apply list_elem_of_In|]. intros ->. by rewrite String.eqb_refl in Hk.
Qed.

Lemma map_set_entries key value m k l :
  (k, l) ∈ Provider.map_set key value m -> k = key ∨ (k, l) ∈ m.
Proof.
  induction m as [|[k' v'] m IH]; simpl.
  - intros Hin. apply list_elem_of_singleton in Hin. left. congruence.
  - destruct (String.eqb_spec k' key) as [->|Hne]; intros Hin.
    + apply elem_of_cons in Hin as [E|Hin]; [left; congruence | right; by right].
    + apply elem_of_cons in Hin as [E|Hin]; [right; rewrite E; by left|].
      destruct (IH Hin) as [->|H]; [by left | right; by right].
Qed.

Lemma ids_of_values (h : list Annotation.t) (refs : list ref) :
  omap (fun a => Annotation.id <$> h !! a) refs
  = map Annotation.id (omap (fun a => h !! a) refs).
Proof.
  unfold ref in *. induction refs as [|a refs IH]; simpl; [done|].
  destruct (h !! a); simpl; [f_equal|]; exact IH.
Qed.

Lemma values_filter_field s field v l :
  values s (List.filter (field_is s field v) l)
  = List.filter (fun o => String.eqb (field o) v) (values s l).
Proof.
  unfold values, field_is. unfold ref in *.
  induction l as [|a l IH]; simpl; [done|].
  destruct (heap s !! a) as [o|] eqn:Ho; simpl; [|exact IH].
  destruct (String.eqb (field o) v); simpl; [|exact IH].
  rewrite Ho. simpl. f_equal. exact IH.
Qed.

(** X28. What [updateDecorationsForEditor] shows.  In a project whose
    ids are unique, once the provider has been given the store's
    annotations of a file under a stored path that matches the document,
    and no other stored path matches, the annotations it collects for the
    document are exactly those annotations, in the store's order.  The
    stored paths stay pairwise different, and after
    [clearAnnotationsForFile] of that path, or [clearAll], nothing is
    collected. *)
Theorem provider_shows_file_annotations s projectPath file document stored p :
  unique_ids s projectPath ->
  NoDup (map fst (Provider.annotations p)) ->
  Provider.matches document stored = true ->
  (∀ k l, (k, l) ∈ Provider.annotations p -> k ≠ stored ->
     Provider.matches document k = false) ->
  let refs := getAnnotationsForFile s file projectPath in
  let p' := Provider.setAnnotationsForFile stored refs p in
  Provider.fileAnnotations (heap s) document p' = refs
  ∧ NoDup (map fst (Provider.annotations p'))
  ∧ Provider.fileAnnotations (heap s) document
      (Provider.clearAnnotationsForFile stored p') = []
  ∧ Provider.fileAnnotations (heap s) document (Provider.clearAll p') = [].
Proof.
  intros Huniq Hkeys Hmatch Hothers refs p'. split_and!.
  - unfold Provider.fileAnnotations, p'. simpl.
    rewrite collect_map_set by done.
    rewrite push_unseen_fresh; [done| |].
    + simpl. rewrite ids_of_values. unfold refs, getAnnotationsForFile.
      fold (values s (List.filter (field_is s Annotation.filePath file)
                        (getAllAnnotations s projectPath))).
      rewrite values_filter_field. by apply NoDup_map_filter.
    + apply Forall_forall. intros a Ha. unfold refs, getAnnotationsForFile in Ha.
      apply list_elem_of_In, filter_In in Ha as [_ Ha].
      unfold field_is in Ha. by destruct (heap s !! a).
  - by apply map_set_keys.
  - unfold Provider.fileAnnotations. simpl. rewrite collect_none; [done|].
    intros k l Hin. apply map_delete_entries in Hin as [Hin Hne].
    apply map_set_entries in Hin as [->|Hin]; [done|]. by eapply Hothers.
  - done.
Qed.

Lemma provider_shows_file_annotations_witness :
  Provider.fileAnnotations (heap sample_store) "/tmp/proj/a.ts"
    (Provider.setAnnotationsForFile "a.ts"
       (getAnnotationsForFile sample_store "a.ts" "/tmp/proj") Provider.create)
  = getAnnotationsForFile sample_store "a.ts" "/tmp/proj".
Proof.
  destruct (provider_shows_file_annotations sample_store "/tmp/proj" "a.ts"
              "/tmp/proj/a.ts" "a.ts" Provider.create) as [H _].
  - unfold unique_ids. apply (bool_decide_unpack _). by vm_compute.
  - apply NoDup_nil_2.
  - reflexivity.
  - intros k l Hin. by apply elem_of_nil in Hin.
  - exact H.
Defined.
